(** * switch-library-manager: the local files database ([db/localSwitchFilesDB.go])

    A shallow embedding of the title classifier ([processLocalFiles]), the
    metadata resolver ([getGameMetadata]), the file-name fallback parsers and
    the cache bootstrap ([NewLocalSwitchDBManager]), followed by the
    properties the specification states about them.

    Conventions of the embedding
    - Go [string] and [[]byte] are [string] (a sequence of 8-bit characters);
      Go [int] is [Z] (only compared, never computed with, so no wrap-around
      arises; [strconv.Atoi] checks the 64-bit range itself).
    - Go maps are stdpp [gmap]s.  The content map returned by a parser is only
      ever counted and iterated, so it is the list of its entries in the
      order the [range] loop visits them; Go leaves that order unspecified,
      and every statement below holds for every order.
    - A run-time panic (slice out of range) is [None] in the [option] monad.
    - [strings.ToLower] is modelled on bytes: it agrees with Go on file names
      made of ASCII characters. *)

From Stdlib Require Import ZArith String Ascii List DecimalString.
From stdpp Require Import gmap strings list fin_maps.

Open Scope string_scope.
Open Scope list_scope.
Open Scope Z_scope.

(* ===================================================================== *)
(** * The parts of the Go standard library the file uses                  *)
(* ===================================================================== *)

Module GoStrings.

Definition code (c : ascii) : N := N_of_ascii c.

Definition is_digit (c : ascii) : bool := ((48 <=? code c) && (code c <=? 57))%N.
Definition is_upper (c : ascii) : bool := ((65 <=? code c) && (code c <=? 90))%N.
Definition is_lower (c : ascii) : bool := ((97 <=? code c) && (code c <=? 122))%N.

Definition lower_char (c : ascii) : ascii :=
    if is_upper c then ascii_of_N (code c + 32) else c.

Definition chars (s : string) : list ascii := list_ascii_of_string s.
Definition str (l : list ascii) : string := string_of_list_ascii l.

  (** [strings.ToLower] *)
Definition ToLower (s : string) : string := str (map lower_char (chars s)).

  (** [len(s)] *)
Definition len (s : string) : Z := Z.of_nat (String.length s).

  (** [strings.HasSuffix] *)
Definition HasSuffix (s suffix : string) : bool :=
    (String.length suffix <=? String.length s)%nat
    && String.eqb (substring (String.length s - String.length suffix)
                             (String.length suffix) s) suffix.

  (** [s[lo:]] and [s[:hi]], which panic when the bound is out of range *)
Definition slice_from (s : string) (lo : Z) : option string :=
    if ((0 <=? lo) && (lo <=? len s))%Z
    then Some (substring (Z.to_nat lo) (String.length s - Z.to_nat lo) s)
    else None.

Definition slice_to (s : string) (hi : Z) : option string :=
    if ((0 <=? hi) && (hi <=? len s))%Z
    then Some (substring 0 (Z.to_nat hi) s)
    else None.

  (** [strings.TrimSuffix] *)
Definition TrimSuffix (s suffix : string) : string :=
    if HasSuffix s suffix
    then substring 0 (String.length s - String.length suffix) s
    else s.

Definition digit_val (c : ascii) : Z := Z.of_N (code c) - 48.

Definition decimal (ds : list ascii) : Z :=
    fold_left (fun n c => n * 10 + digit_val c) ds 0.

Definition int_min : Z := - 2 ^ 63.
Definition int_max : Z := 2 ^ 63 - 1.

  (** [strconv.Atoi] on a 64-bit platform: an optional sign, then one or
      more decimal digits, the value within the range of [int]. *)
Definition Atoi (s : string) : option Z :=
    let '(neg, ds) :=
      match chars s with
      | c :: r =>
          if Ascii.eqb c "-" then (true, r)
          else if Ascii.eqb c "+" then (false, r)
          else (false, c :: r)
      | [] => (false, [])
      end in
    match ds with
    | [] => None
    | _ =>
        if forallb is_digit ds then
          let n := if neg then - decimal ds else decimal ds in
          if ((int_min <=? n) && (n <=? int_max))%Z then Some n else None
        else None
    end.

  (** [strconv.Itoa] *)
Definition Itoa (n : Z) : string := NilZero.string_of_int (Z.to_int n).

End GoStrings.

(** ** A leftmost-first backtracking matcher for the fragment of [regexp]
       syntax that the two patterns of the file use *)

Module Regexp.
Import GoStrings.

Inductive re : Type :=
  | Lit (c : ascii)                 (* a literal character *)
  | Class (p : ascii -> bool)       (* a character class *)
  | Opt (r : re)                    (* r?      , greedy *)
  | Rep (r : re) (lo hi : nat)      (* r{lo,hi}, greedy *)
  | Cat (r1 r2 : re)                (* r1 r2 *)
  | Cap (r : re).                   (* ( r ), the capture group *)

Definition capture := option (list ascii).

Section Matcher.
Context {R : Type}.

Definition cont := list ascii -> capture -> option R.

Definition orelse (a : option R) (b : option R) : option R :=
      match a with Some x => Some x | None => b end.

    (** [rep step lo hi]: up to [hi] greedy iterations of [step], at least [lo]. *)
Fixpoint rep (step : list ascii -> capture -> cont -> option R)
             (lo hi : nat) (s : list ascii) (c : capture) (k : cont) : option R :=
      match hi with
      | O => if (lo =? 0)%nat then k s c else None
      | S hi' =>
          orelse (step s c (fun s' c' => rep step (pred lo) hi' s' c' k))
                 (if (lo =? 0)%nat then k s c else None)
      end.

    (** [run r s c k]: match [r] at the start of [s], then continue with [k]
        on what is left; alternatives are tried in the order of preference
        of a backtracking search and the first success is returned. *)
Fixpoint run (r : re) (s : list ascii) (c : capture) (k : cont) : option R :=
      match r with
      | Lit a =>
          match s with
          | x :: t => if Ascii.eqb x a then k t c else None
          | [] => None
          end
      | Class p =>
          match s with
          | x :: t => if p x then k t c else None
          | [] => None
          end
      | Opt r1 => orelse (run r1 s c k) (k s c)
      | Rep r1 lo hi => rep (run r1) lo hi s c k
      | Cat r1 r2 => run r1 s c (fun s' c' => run r2 s' c' k)
      | Cap r1 =>
          run r1 s c (fun s' _ =>
            k s' (Some (take (length s - length s')%nat s)))
      end.
End Matcher.

  (** The match of [r] anchored at the start of [s]: the text of the group. *)
Definition match_here (r : re) (s : list ascii) : option capture :=
    run r s None (fun _ c => Some c).

  (** The leftmost match of [r] in [s]. *)
Fixpoint find (r : re) (s : list ascii) : option capture :=
    match match_here r s with
    | Some c => Some c
    | None => match s with
              | [] => None
              | _ :: t => find r t
              end
    end.

  (** [FindStringSubmatch] of a compiled pattern with one group: [nil] when
      there is no match, else the two-element slice of the whole match and
      the group; only the group is kept here, so the source's test that the
      result has length 2 reads [Some]. *)
Definition FindStringSubmatch (r : re) (s : string) : option string :=
    match find r (chars s) with
    | Some (Some g) => Some (str g)
    | Some None => Some ""
    | None => None
    end.

  (** What a match means: [denote r t c c'] says that [r] matches exactly
      the text [t], taking the capture from [c] to [c']. *)
Fixpoint rep_denote (D : list ascii -> capture -> capture -> Prop)
           (lo hi : nat) (t : list ascii) (c c' : capture) : Prop :=
    match hi with
    | O => lo = O /\ t = [] /\ c' = c
    | S hi' =>
        (lo = O /\ t = [] /\ c' = c) \/
        exists t1 t2 c1, t = t1 ++ t2 /\ D t1 c c1 /\
                         rep_denote D (pred lo) hi' t2 c1 c'
    end.

Fixpoint denote (r : re) (t : list ascii) (c c' : capture) : Prop :=
    match r with
    | Lit a => t = [a] /\ c' = c
    | Class p => exists x, t = [x] /\ p x = true /\ c' = c
    | Opt r1 => (t = [] /\ c' = c) \/ denote r1 t c c'
    | Rep r1 lo hi => rep_denote (denote r1) lo hi t c c'
    | Cat r1 r2 => exists t1 t2 c1, t = t1 ++ t2 /\ denote r1 t1 c c1 /\ denote r2 t2 c1 c'
    | Cap r1 => (exists c1, denote r1 t c c1) /\ c' = Some t
    end.

  (** A matching step accepts only what [D] describes. *)
Definition step_sound {R : Type}
             (step : list ascii -> capture -> @cont R -> option R)
             (D : list ascii -> capture -> capture -> Prop) : Prop :=
    forall s c k res, step s c k = Some res ->
      exists t rest c', s = t ++ rest /\ D t c c' /\ k rest c' = Some res.

  (** A matching step succeeds whenever [D] describes a prefix after which
      the continuation succeeds. *)
Definition step_complete {R : Type}
             (step : list ascii -> capture -> @cont R -> option R)
             (D : list ascii -> capture -> capture -> Prop) : Prop :=
    forall s c k t rest c', s = t ++ rest -> D t c c' -> is_Some (k rest c') ->
      is_Some (step s c k).

End Regexp.

Import GoStrings.

(* ===================================================================== *)
(** * Data model                                                          *)
(* ===================================================================== *)

(** [os.FileInfo].  The value is an interface holding a pointer, and the
    skip list is keyed by it, so two values are the same key exactly when
    they are the same pointer: [Addr] is that pointer, [0] being [nil]. *)
Record FileInfo := {
  Addr : N;
  Name : string;
  Size : Z;
  IsDir : bool
}.

Record ExtendedFileInfo := {
  Info : FileInfo;
  BaseFolder : string
}.

(** [switchfs.ContentMetaAttributes], the fields this file reads or writes. *)
Record ContentMetaAttributes := {
  TitleId : string;
  Version : Z;
  Type_ : string
}.

Record SwitchFileInfo := {
  ExtendedInfo : ExtendedFileInfo;
  Metadata : ContentMetaAttributes
}.

Record SwitchGameFiles := {
  File : SwitchFileInfo;
  BaseExist : bool;
  Updates : gmap Z SwitchFileInfo;
  Dlc : gmap string SwitchFileInfo;
  MultiContent : bool;
  LatestUpdate : Z;
  IsSplit : bool
}.

Record SkippedFile := {
  ReasonCode : Z;
  ReasonText : string;
  AdditionalInfo : string
}.

Definition REASON_UNSUPPORTED_TYPE : Z := 0.
Definition REASON_DUPLICATE : Z := 1.
Definition REASON_OLD_UPDATE : Z := 2.
Definition REASON_UNRECOGNISED : Z := 3.
Definition REASON_MALFORMED_FILE : Z := 4.

#[global] Instance FileInfo_eq_dec : EqDecision FileInfo.
Proof. solve_decision. Defined.

#[global] Instance ExtendedFileInfo_eq_dec : EqDecision ExtendedFileInfo.
Proof. solve_decision. Defined.

#[global] Instance ExtendedFileInfo_countable : Countable ExtendedFileInfo.
Proof.
  refine (inj_countable'
            (fun f => (Name (Info f),
                       (BaseFolder f, (Addr (Info f), Size (Info f), IsDir (Info f)))))
            (fun t => match t with
                      | (n, (b, (a, s, d))) =>
                          {| Info := {| Addr := a; Name := n; Size := s; IsDir := d |};
                             BaseFolder := b |}
                      end) _).
  intros [[] ?]; reflexivity.
Defined.

(** The zero values that a lookup of a missing map key yields. *)
Definition zeroExtendedFileInfo : ExtendedFileInfo :=
  {| Info := {| Addr := 0; Name := ""; Size := 0; IsDir := false |};
     BaseFolder := "" |}.

Definition zeroSwitchFileInfo : SwitchFileInfo :=
  {| ExtendedInfo := zeroExtendedFileInfo;
     Metadata := {| TitleId := ""; Version := 0; Type_ := "" |} |}.

(** The mapping a parser returns, as the sequence of its entries. *)
Abbreviation ContentMap := (list (string * ContentMetaAttributes)).

Abbreviation TitlesMap := (gmap string SwitchGameFiles).
Abbreviation SkippedMap := (gmap ExtendedFileInfo SkippedFile).

(** ** The bolt store: buckets by name, each a map from key to value *)

Abbreviation Bucket := (gmap string string).
Abbreviation DB := (gmap string (gmap string string)).

(** A transaction run against the store, with the key it is about. *)
Inductive StoreOp :=
| OpView (key : string)
| OpUpdate (key : string).

(** [LocalSwitchDBManager]: the store, and the history of the transactions the
    resolver ran against it (kept only to state what the resolver did not do). *)
Record LocalSwitchDBManager := {
  db : DB;
  ops : list StoreOp
}.

Definition MaxKeySize : Z := 32768.
Definition MaxValueSize : Z := 2 ^ 31 - 2.

(** [Put] on a bucket, inside a writable transaction. *)
Definition Put (b : Bucket) (key value : string) : option Bucket :=
  if (len key =? 0) || (MaxKeySize <? len key) || (MaxValueSize <? len value)
  then None
  else Some (<[key := value]> b).

(** [NewLocalSwitchDBManager], from the content of the opened store. *)
Definition NewLocalSwitchDBManager (store : DB) : LocalSwitchDBManager :=
  let store' :=
    match store !! "deep-scan" with
    | None => store
    | Some b =>
        match b !! "app_version" with
        | None => delete "deep-scan" store
        | Some v => store (* decoded into appVersion, which is not read again *)
        end
    end in
  {| db := store'; ops := [] |}.

(** [ClearDB]: the store and the error of the transaction.  Deleting a
    bucket that does not exist is the error "bucket not found", and the
    transaction is then rolled back. *)
Definition ClearDB (ldb : LocalSwitchDBManager) : LocalSwitchDBManager * option string :=
  match db ldb !! "deep-scan" with
  | Some _ => ({| db := delete "deep-scan" (db ldb); ops := ops ldb |}, None)
  | None => (ldb, Some "bucket not found")
  end.

(* ===================================================================== *)
(** * Fallback name parser                                                *)
(* ===================================================================== *)

Definition is_vV (c : ascii) : bool := Ascii.eqb c "v" || Ascii.eqb c "V".

(** The class [[A-Z,a-z0-9]] as it is written in the pattern. *)
Definition is_titleId_char (c : ascii) : bool :=
  is_upper c || Ascii.eqb c "," || is_lower c || is_digit c.

(** [\[[vV]?(?P<version>[0-9]{1,10})]] *)
Definition versionRegex : Regexp.re :=
  Regexp.Cat (Regexp.Lit "[")
    (Regexp.Cat (Regexp.Opt (Regexp.Class is_vV))
       (Regexp.Cat (Regexp.Cap (Regexp.Rep (Regexp.Class is_digit) 1 10))
          (Regexp.Lit "]"))).

(** [\[(?P<titleId>[A-Z,a-z0-9]{16})]] *)
Definition titleIdRegex : Regexp.re :=
  Regexp.Cat (Regexp.Lit "[")
    (Regexp.Cat (Regexp.Cap (Regexp.Rep (Regexp.Class is_titleId_char) 16 16))
       (Regexp.Lit "]")).

(** The two parsers return a pointer and an error; the callers drop the
    error, so only the pointer is kept: [None] is [nil]. *)
Definition parseVersionFromFileName (fileName : string) : option Z :=
  match Regexp.FindStringSubmatch versionRegex fileName with
  | None => None
  | Some g => Atoi g
  end.

Definition parseTitleIdFromFileName (fileName : string) : option string :=
  match Regexp.FindStringSubmatch titleIdRegex fileName with
  | None => None
  | Some g => Some (ToLower g)
  end.

(** [ParseTitleNameFromFileName] *)
Fixpoint before_bracket (s : list ascii) : list ascii :=
  match s with
  | [] => []
  | c :: t => if Ascii.eqb c "[" then [] else c :: before_bracket t
  end.

Definition ParseTitleNameFromFileName (fileName : string) : string :=
  str (before_bracket (chars fileName)).

(* ===================================================================== *)
(** * Collaborators                                                       *)
(* ===================================================================== *)

(** What a structural parser returns: the mapping ([None] is [nil]) and the
    error ([None] is [nil], otherwise its text). *)
Abbreviation ParseResult := (option ContentMap * option string)%type.

(** The packages the file calls and does not contain. *)
Record Environment := {
  (** [settings.SwitchKeys()]: [None] when no key set is loaded; a missing
      key reads as the empty string *)
  SwitchKeys : option (gmap string string);
  (** [settings.SLM_VERSION] *)
  SLM_VERSION : string;
  (** [filepath.Join] *)
  Join : string -> string -> string;
  (** [switchfs.ReadNspMetadata], [switchfs.ReadXciMetadata] and
      [fileio.ReadSplitFileMetadata], by file path *)
  ReadNspMetadata : string -> ParseResult;
  ReadXciMetadata : string -> ParseResult;
  ReadSplitFileMetadata : string -> ParseResult;
  (** [gob] encoding of a mapping ([None]: the encoder fails) and the value
      left in the decoded variable ([None]: it is still [nil]) *)
  gobEncode : ContentMap -> option string;
  gobDecode : string -> option ContentMap
}.

Definition GetKey (keys : gmap string string) (name : string) : string :=
  default "" (keys !! name).

(** [keys != nil && keys.GetKey("header_key") != ""] *)
Definition deepScanAvailable (E : Environment) : bool :=
  match SwitchKeys E with
  | None => false
  | Some keys => negb (String.eqb (GetKey keys "header_key") "")
  end.

(* ===================================================================== *)
(** * Metadata resolver                                                   *)
(* ===================================================================== *)

Section Resolver.
Variable E : Environment.

Definition fileKeyOf (file : ExtendedFileInfo) (filePath : string) : string :=
    (filePath +:+ "|" +:+ Name (Info file) +:+ "|" +:+ Itoa (Size (Info file))).

  (** The read transaction of [getGameMetadata]. *)
Definition cacheLookup (ldb : LocalSwitchDBManager) (fileKey : string)
    : option ContentMap * LocalSwitchDBManager :=
    let metadata :=
      match db ldb !! "deep-scan" with
      | None => None
      | Some b =>
          match b !! fileKey with
          | None => None
          | Some v => gobDecode E v
          end
      end in
    (metadata, {| db := db ldb; ops := ops ldb ++ [OpView fileKey] |}).

  (** The write transaction of [getGameMetadata]; when its function returns
      an error, the transaction is rolled back and the error only logged. *)
Definition cacheStore (ldb : LocalSwitchDBManager) (fileKey : string)
             (metadata : ContentMap) : LocalSwitchDBManager :=
    let b :=
      match db ldb !! "deep-scan" with
      | Some b => b
      | None => default ∅ (Put ∅ "app_version" (SLM_VERSION E))
      end in
    let committed :=
      match gobEncode E metadata with
      | None => None
      | Some bytes =>
          match Put b fileKey bytes with
          | None => None
          | Some b' => Some (<["deep-scan" := b']> (db ldb))
          end
      end in
    {| db := default (db ldb) committed;
       ops := ops ldb ++ [OpUpdate fileKey] |}.

Definition malformed (text : string) (err : string) : SkippedFile :=
    {| ReasonCode := REASON_MALFORMED_FILE;
       ReasonText := text +:+ err +:+ "]";
       AdditionalInfo := "" |}.

  (** A call of a structural parser with the skip record of its failure. *)
Definition structural (file : ExtendedFileInfo) (res : ParseResult)
             (text : string) (skipped : SkippedMap)
    : option ContentMap * SkippedMap :=
    match snd res with
    | Some err => (fst res, <[file := malformed text err]> skipped)
    | None => (fst res, skipped)
    end.

  (** The last part of [getGameMetadata], from "fallback to parse data from
      filename" on. *)
Definition fallback (file : ExtendedFileInfo) : ContentMap + string :=
    match parseTitleIdFromFileName (Name (Info file)),
          parseVersionFromFileName (Name (Info file)) with
    | Some titleId, Some version =>
        inl [(titleId, {| TitleId := titleId; Version := version; Type_ := "" |})]
    | _, _ => inr "unable to determine titileId / version"
    end.

  (** [getGameMetadata]: the mapping or the error, the skip list and the store. *)
Definition getGameMetadata (ldb : LocalSwitchDBManager) (file : ExtendedFileInfo)
             (filePath : string) (skipped : SkippedMap)
    : (ContentMap + string) * SkippedMap * LocalSwitchDBManager :=
    let fileKey := fileKeyOf file filePath in
    let finish (metadata : option ContentMap) (skipped : SkippedMap)
               (ldb : LocalSwitchDBManager) :=
      match metadata with
      | Some m => (inl m, skipped, cacheStore ldb fileKey m)
      | None => (fallback file, skipped, ldb)
      end in
    if deepScanAvailable E then
      let '(cached, ldb) := cacheLookup ldb fileKey in
      match cached with
      | Some m => (inl m, skipped, ldb)
      | None =>
          let fileName := ToLower (Name (Info file)) in
          if HasSuffix fileName "nsp" || HasSuffix fileName "nsz" then
            let '(metadata, skipped) :=
              structural file (ReadNspMetadata E filePath)
                         "failed to read NSP [reason: " skipped in
            finish metadata skipped ldb
          else if HasSuffix fileName "xci" || HasSuffix fileName "xcz" then
            let '(metadata, skipped) :=
              structural file (ReadXciMetadata E filePath)
                         "failed to read NSP [reason: " skipped in
            finish metadata skipped ldb
          else if HasSuffix fileName "00" then
            let '(metadata, skipped) :=
              structural file (ReadSplitFileMetadata E filePath)
                         "failed to read split files [reason: " skipped in
            finish metadata skipped ldb
          else finish None skipped ldb
      end
    else finish None skipped ldb.

End Resolver.

(* ===================================================================== *)
(** * Title classifier                                                    *)
(* ===================================================================== *)

Definition skip (code : Z) (text : string) : SkippedFile :=
  {| ReasonCode := code; ReasonText := text; AdditionalInfo := "" |}.

Definition oldUpdate : SkippedFile :=
  skip REASON_OLD_UPDATE "old update file, newer update exist locally".

Definition newTitle (multiContent isSplit : bool) : SwitchGameFiles :=
  {| File := zeroSwitchFileInfo; BaseExist := false;
     Updates := ∅; Dlc := ∅;
     MultiContent := multiContent; LatestUpdate := 0; IsSplit := isSplit |}.

Definition withType (m : ContentMetaAttributes) (t : string) : ContentMetaAttributes :=
  {| TitleId := TitleId m; Version := Version m; Type_ := t |}.

Definition setUpdates (t : SwitchGameFiles) (u : gmap Z SwitchFileInfo) : SwitchGameFiles :=
  {| File := File t; BaseExist := BaseExist t; Updates := u; Dlc := Dlc t;
     MultiContent := MultiContent t; LatestUpdate := LatestUpdate t;
     IsSplit := IsSplit t |}.

Definition setLatestUpdate (t : SwitchGameFiles) (v : Z) : SwitchGameFiles :=
  {| File := File t; BaseExist := BaseExist t; Updates := Updates t; Dlc := Dlc t;
     MultiContent := MultiContent t; LatestUpdate := v; IsSplit := IsSplit t |}.

Definition setBase (t : SwitchGameFiles) (f : SwitchFileInfo) : SwitchGameFiles :=
  {| File := f; BaseExist := true; Updates := Updates t; Dlc := Dlc t;
     MultiContent := MultiContent t; LatestUpdate := LatestUpdate t;
     IsSplit := IsSplit t |}.

Definition setDlc (t : SwitchGameFiles) (d : gmap string SwitchFileInfo) : SwitchGameFiles :=
  {| File := File t; BaseExist := BaseExist t; Updates := Updates t; Dlc := d;
     MultiContent := MultiContent t; LatestUpdate := LatestUpdate t;
     IsSplit := IsSplit t |}.

Definition fileName (f : SwitchFileInfo) : string := Name (Info (ExtendedInfo f)).

(** The branches of the body of the loop over the content entries of one
    file: what they do to the record of the title and to the skip list. *)
Definition classifyTitle (file : ExtendedFileInfo) (metadata : ContentMetaAttributes)
           (switchTitle : SwitchGameFiles) (skipped : SkippedMap)
  : SwitchGameFiles * SkippedMap :=
  if HasSuffix (TitleId metadata) "800" then
    (* process Updates *)
    let metadata := withType metadata "Update" in
    match Updates switchTitle !! Version metadata with
    | Some update =>
        (switchTitle,
         <[file := skip REASON_DUPLICATE
                     ("duplicate update file (" +:+ fileName update +:+ ")")]> skipped)
    | None =>
        let switchTitle :=
          setUpdates switchTitle
            (<[Version metadata := {| ExtendedInfo := file; Metadata := metadata |}]>
               (Updates switchTitle)) in
        if LatestUpdate switchTitle <? Version metadata then
          let skipped :=
            if LatestUpdate switchTitle =? 0 then skipped
            else <[ExtendedInfo
                     (default zeroSwitchFileInfo
                        (Updates switchTitle !! LatestUpdate switchTitle))
                   := oldUpdate]> skipped in
          (setLatestUpdate switchTitle (Version metadata), skipped)
        else
          (switchTitle, <[file := oldUpdate]> skipped)
    end
  else if HasSuffix (TitleId metadata) "000" then
    (* process base *)
    let metadata := withType metadata "Base" in
    if BaseExist switchTitle then
      (switchTitle,
       <[file := skip REASON_DUPLICATE
                   ("duplicate base file (" +:+ fileName (File switchTitle) +:+ ")")]>
         skipped)
    else
      (setBase switchTitle {| ExtendedInfo := file; Metadata := metadata |}, skipped)
  else
    let install :=
      (* not an update, and not main TitleAttributes, so treat it as a DLC *)
      (setDlc switchTitle
         (<[TitleId metadata :=
              {| ExtendedInfo := file; Metadata := withType metadata "DLC" |}]>
            (Dlc switchTitle)),
       skipped) in
    match Dlc switchTitle !! TitleId metadata with
    | Some dlc =>
        if Version metadata <? Version (Metadata dlc) then
          (switchTitle,
           <[file := skip REASON_OLD_UPDATE
                       "old DLC file, newer version exist locally"]> skipped)
        else if Version metadata =? Version (Metadata dlc) then
          (switchTitle,
           <[file := skip REASON_DUPLICATE
                       ("duplicate DLC file (" +:+ fileName dlc +:+ ")")]> skipped)
        else install
    | None => install
    end.

(** The prefix of a title id: the id without its last four characters. *)
Definition idPrefixOf (titleId : string) : option string :=
  slice_to titleId (len titleId - 4).

(** The body of the loop over the content entries of one file.  The record
    of the title is a pointer, found in [titles] or made new and stored
    there before any branch is taken, so what a branch does to the record it
    does to the stored one. *)
Definition classifyEntry (file : ExtendedFileInfo) (isSplit multiContent : bool)
           (metadata : ContentMetaAttributes)
           (titles : TitlesMap) (skipped : SkippedMap)
  : option (TitlesMap * SkippedMap) :=
  idPrefix ← idPrefixOf (TitleId metadata);
  let switchTitle := default (newTitle multiContent isSplit) (titles !! idPrefix) in
  let '(switchTitle, skipped) := classifyTitle file metadata switchTitle skipped in
  Some (<[idPrefix := switchTitle]> titles, skipped).

(** The loop over the content entries of one file. *)
Fixpoint classifyEntries (file : ExtendedFileInfo) (isSplit multiContent : bool)
         (entries : ContentMap) (titles : TitlesMap) (skipped : SkippedMap)
  : option (TitlesMap * SkippedMap) :=
  match entries with
  | [] => Some (titles, skipped)
  | (_, metadata) :: rest =>
      '(titles, skipped) ← classifyEntry file isSplit multiContent metadata titles skipped;
      classifyEntries file isSplit multiContent rest titles skipped
  end.

(** The state the loop over the files works on. *)
Record State := {
  mgr : LocalSwitchDBManager;
  titles : TitlesMap;
  skipped : SkippedMap
}.

(** What the loop does with a file before it resolves its metadata. *)
Inductive Shape :=
| Ignored                  (* [continue] with nothing recorded *)
| Unsupported              (* not a package: recorded and left *)
| Candidate (isSplit : bool).

Definition supportedExtension (fileName : string) : bool :=
  HasSuffix fileName "xci" || HasSuffix fileName "nsp"
  || HasSuffix fileName "nsz" || HasSuffix fileName "xcz".

Definition shapeOf (file : ExtendedFileInfo) : option Shape :=
  if IsDir (Info file) then Some Ignored
  else
    let fileName := ToLower (Name (Info file)) in
    suffix ← slice_from fileName (len fileName - 2);
    match Atoi suffix with
    | Some partNum => if partNum =? 0 then Some (Candidate true) else Some Ignored
    | None =>
        if supportedExtension fileName then Some (Candidate false)
        else Some Unsupported
    end.

Section Classifier.
Variable E : Environment.

  (** The body of the loop over the files. *)
Definition processFile (st : State) (file : ExtendedFileInfo) : option State :=
    let filePath := Join E (BaseFolder file) (Name (Info file)) in
    shape ← shapeOf file;
    match shape with
    | Ignored => Some st
    | Unsupported =>
        Some {| mgr := mgr st; titles := titles st;
                skipped := <[file := skip REASON_UNSUPPORTED_TYPE
                                       "file type is not supported"]> (skipped st) |}
    | Candidate isSplit =>
        let '(res, skipped, ldb) := getGameMetadata E (mgr st) file filePath (skipped st) in
        match res with
        | inr err =>
            let skipped :=
              match skipped !! file with
              | Some _ => skipped
              | None =>
                  <[file := skip REASON_UNRECOGNISED
                              ("unable to determine title-Id / version - " +:+ err)]>
                    skipped
              end in
            Some {| mgr := ldb; titles := titles st; skipped := skipped |}
        | inl contentMap =>
            '(titles, skipped) ←
              classifyEntries file isSplit (1 <? Z.of_nat (length contentMap))
                              contentMap (titles st) skipped;
            Some {| mgr := ldb; titles := titles; skipped := skipped |}
        end
    end.

  (** [processLocalFiles] *)
Fixpoint processLocalFiles (files : list ExtendedFileInfo) (st : State) : option State :=
    match files with
    | [] => Some st
    | file :: rest => st' ← processFile st file; processLocalFiles rest st'
    end.

  (** [CreateLocalSwitchFilesDB], from the list of files the folder scan
      collected: the catalogue, the skip list and the number of files. *)
Definition CreateLocalSwitchFilesDB (ldb : LocalSwitchDBManager)
             (files : list ExtendedFileInfo) : option (State * Z) :=
    st ← processLocalFiles files {| mgr := ldb; titles := ∅; skipped := ∅ |};
    Some (st, Z.of_nat (length files)).

End Classifier.

(* ===================================================================== *)
(** * The vocabulary of the specification                                 *)
(* ===================================================================== *)

(** ** File names

    [versionToken upperV t ds]: [t] is a bracketed version token with the
    digits [ds], written [[v<digits>]] or [[<digits>]], 1 to 10 digits;
    with [upperV] the letter may also be a capital [V]. *)
Definition versionToken (upperV : bool) (t ds : list ascii) : Prop :=
  exists v, t = "["%char :: v ++ ds ++ ["]"%char] /\
    (v = [] \/ v = ["v"%char] \/ (upperV = true /\ v = ["V"%char])) /\
    forallb is_digit ds = true /\ (1 <= length ds <= 10)%nat.






(** The single entry that the fallback makes of a title id and a version. *)
Definition fallbackEntry (titleId : string) (version : Z) : ContentMap :=
  [(titleId, {| TitleId := titleId; Version := version; Type_ := "" |})].

(** ** Sample collaborators and files, for the concrete runs *)

(** No key set is loaded: structural parsing is not available. *)
Definition noKeys : Environment :=
  {| SwitchKeys := None;
     SLM_VERSION := "1.4.0";
     Join := fun dir name => dir +:+ "/" +:+ name;
     ReadNspMetadata := fun _ => (None, Some "no keys");
     ReadXciMetadata := fun _ => (None, Some "no keys");
     ReadSplitFileMetadata := fun _ => (None, Some "no keys");
     gobEncode := fun _ => None;
     gobDecode := fun _ => None |}.

Definition mkFile (addr : N) (name : string) : ExtendedFileInfo :=
  {| Info := {| Addr := addr; Name := name; Size := 1024; IsDir := false |};
     BaseFolder := "/roms" |}.

Definition st0 : State :=
  {| mgr := NewLocalSwitchDBManager ∅; titles := ∅; skipped := ∅ |}.

Definition fallbackExampleFile : ExtendedFileInfo :=
  mkFile 1 "Some Game [0100ABCDEF123456][v65536].nsp".


(** ** The resolver

    The structural parser that [getGameMetadata] calls for a file, with the
    beginning of the text of the skip record of its failure; [None] when the
    name has none of the recognised shapes. *)
Definition invokedParser (E : Environment) (file : ExtendedFileInfo)
           (filePath : string) : option (ParseResult * string) :=
  let fileName := ToLower (Name (Info file)) in
  if HasSuffix fileName "nsp" || HasSuffix fileName "nsz" then
    Some (ReadNspMetadata E filePath, "failed to read NSP [reason: ")
  else if HasSuffix fileName "xci" || HasSuffix fileName "xcz" then
    Some (ReadXciMetadata E filePath, "failed to read NSP [reason: ")
  else if HasSuffix fileName "00" then
    Some (ReadSplitFileMetadata E filePath, "failed to read split files [reason: ")
  else None.

(** The transactions a call of the resolver added to the history. *)
Definition newOps (before after : LocalSwitchDBManager) (added : list StoreOp) : Prop :=
  ops after = ops before ++ added.

(** ** The catalogue

    The slots of a title record that can hold a file. *)
Definition inBase (t : SwitchGameFiles) (f : ExtendedFileInfo) : Prop :=
  BaseExist t = true /\ ExtendedInfo (File t) = f.

Definition inUpdates (t : SwitchGameFiles) (f : ExtendedFileInfo) : Prop :=
  exists v u, Updates t !! v = Some u /\ ExtendedInfo u = f.

Definition inDlc (t : SwitchGameFiles) (f : ExtendedFileInfo) : Prop :=
  exists id d, Dlc t !! id = Some d /\ ExtendedInfo d = f.

Definition inTitle (t : SwitchGameFiles) (f : ExtendedFileInfo) : Prop :=
  inBase t f \/ inUpdates t f \/ inDlc t f.

(** [f] is referenced from some slot of some title record. *)
Definition referenced (titles : TitlesMap) (f : ExtendedFileInfo) : Prop :=
  exists p t, titles !! p = Some t /\ inTitle t f.

(** [f] is in the skip list. *)
Definition isSkipped (skipped : SkippedMap) (f : ExtendedFileInfo) : Prop :=
  is_Some (skipped !! f).

(** The partition the specification states: one of the two, not both. *)
Definition partitioned (st : State) (f : ExtendedFileInfo) : Prop :=
  (referenced (titles st) f /\ ~ isSkipped (skipped st) f) \/
  (~ referenced (titles st) f /\ isSkipped (skipped st) f).

(** Some entry of the mapping [cm] is a DLC whose slot now holds a strictly
    higher version. *)
Definition displacedDlc (cm : ContentMap) (titles : TitlesMap) : Prop :=
  exists k m p t cur, (k, m) ∈ cm /\ idPrefixOf (TitleId m) = Some p /\
    titles !! p = Some t /\ Dlc t !! TitleId m = Some cur /\
    Version m < Version (Metadata cur).

(** How a title record can change while files are classified. *)
Definition evolves (t t' : SwitchGameFiles) : Prop :=
  LatestUpdate t <= LatestUpdate t' /\
  (BaseExist t = true -> BaseExist t' = true /\ File t' = File t) /\
  (forall v u, Updates t !! v = Some u -> Updates t' !! v = Some u) /\
  (forall id d, Dlc t !! id = Some d ->
     exists d', Dlc t' !! id = Some d' /\
       (d' = d \/ Version (Metadata d) < Version (Metadata d'))).

Definition titlesEvolve (titles titles' : TitlesMap) : Prop :=
  forall p t, titles !! p = Some t -> exists t', titles' !! p = Some t' /\ evolves t t'.

(** What holds of every title record the classifier builds. *)
Definition wfTitle (t : SwitchGameFiles) : Prop :=
  0 <= LatestUpdate t /\
  (LatestUpdate t <> 0 -> is_Some (Updates t !! LatestUpdate t)) /\
  (forall v, is_Some (Updates t !! v) -> v <= LatestUpdate t).

Definition wfTitles (titles : TitlesMap) : Prop :=
  forall p t, titles !! p = Some t -> wfTitle t.

(** What the resolver returns for [file] when the loop reaches it in the
    state [st]. *)
Definition resolution (E : Environment) (st : State) (file : ExtendedFileInfo)
  : ContentMap + string :=
  fst (fst (getGameMetadata E (mgr st) file
              (Join E (BaseFolder file) (Name (Info file))) (skipped st))).

(** Where a branch of the classifier leaves the file in hand: in the skip
    list, or in the slot it filled. *)
Definition placed (f : ExtendedFileInfo) (m : ContentMetaAttributes)
           (t : SwitchGameFiles) (s : SkippedMap) : Prop :=
  isSkipped s f \/ inBase t f \/ inUpdates t f \/
  Dlc t !! TitleId m = Some {| ExtendedInfo := f; Metadata := withType m "DLC" |}.

(** A run that ends without a panic. *)
Definition completes {A : Type} (o : option A) : bool :=
  match o with Some _ => true | None => false end.

(** ** Reading a catalogue *)

Definition latestOf (st : State) (p : string) : option Z :=
  t ← titles st !! p; Some (LatestUpdate t).

Definition updateAt (st : State) (p : string) (v : Z) : option ExtendedFileInfo :=
  t ← titles st !! p; u ← Updates t !! v; Some (ExtendedInfo u).

Definition dlcAt (st : State) (p id : string) : option (ExtendedFileInfo * Z) :=
  t ← titles st !! p; d ← Dlc t !! id; Some (ExtendedInfo d, Version (Metadata d)).

Definition baseOf (st : State) (p : string) : option ExtendedFileInfo :=
  t ← titles st !! p;
  if BaseExist t then Some (ExtendedInfo (File t)) else None.

(** [inTitle] and [referenced], computed. *)
Definition inTitleb (t : SwitchGameFiles) (f : ExtendedFileInfo) : bool :=
  (BaseExist t && bool_decide (ExtendedInfo (File t) = f))
  || existsb (fun vu => bool_decide (ExtendedInfo (snd vu) = f)) (map_to_list (Updates t))
  || existsb (fun kd => bool_decide (ExtendedInfo (snd kd) = f)) (map_to_list (Dlc t)).

Definition referencedb (titles : TitlesMap) (f : ExtendedFileInfo) : bool :=
  existsb (fun pt => inTitleb (snd pt) f) (map_to_list titles).

(** The number of the segment a file name ends in, if it ends in one. *)
Definition partNumber (file : ExtendedFileInfo) : option Z :=
  suffix ← slice_from (ToLower (Name (Info file)))
                      (len (ToLower (Name (Info file))) - 2);
  Atoi suffix.

(** Where the mapping the resolver returns comes from. *)
Inductive Source := FromCache | FromParser | FromFileName.

Definition sourceOf (E : Environment) (ldb : LocalSwitchDBManager)
           (file : ExtendedFileInfo) (filePath : string) : Source :=
  if deepScanAvailable E then
    match fst (cacheLookup E ldb (fileKeyOf file filePath)) with
    | Some _ => FromCache
    | None =>
        match invokedParser E file filePath with
        | Some (res, _) =>
            match fst res with Some _ => FromParser | None => FromFileName end
        | None => FromFileName
        end
    end
  else FromFileName.

(** One title record fed a sequence of entries, each with its file. *)
Definition classifyTitleSeq (entries : list (ExtendedFileInfo * ContentMetaAttributes))
           (t : SwitchGameFiles) (s : SkippedMap) : SwitchGameFiles * SkippedMap :=
  foldl (fun ts fm => classifyTitle (fst fm) (snd fm) (fst ts) (snd ts)) (t, s) entries.

(** ** More sample files and collaborators *)

Definition update3 := mkFile 11 "Game [0100000000001800][v3].nsp".
Definition update1 := mkFile 12 "Game [0100000000001800][v1].nsp".
Definition update5 := mkFile 13 "Game [0100000000001800][v5].nsp".
Definition update0 := mkFile 14 "Game [0100000000001800][v0].nsp".
Definition update0again := mkFile 15 "Game (copy) [0100000000001800][v0].nsp".
Definition baseFirst := mkFile 21 "Game [0100000000001000][v0].nsp".
Definition baseLater := mkFile 22 "Game (other dump) [0100000000001000][v65536].nsp".
Definition dlcV1 := mkFile 31 "Game DLC [0100000000001001][v1].nsp".
Definition dlcV2 := mkFile 32 "Game DLC [0100000000001001][v2].nsp".
Definition dlcV2again := mkFile 33 "Game DLC (copy) [0100000000001001][v2].nsp".
Definition segment01 := mkFile 41 "01".
Definition textFile := mkFile 42 "readme.txt".
Definition unnamedDump := mkFile 43 "dump.nsp".

Definition gamePrefix : string := "010000000000".

(** A key set is loaded, every structural parser fails, and the store holds
    values of one kind. *)
Definition withKeys : Environment :=
  {| SwitchKeys := Some {["header_key" := "aeaab1ca08adf9be"]};
     SLM_VERSION := "1.4.0";
     Join := fun dir name => dir +:+ "/" +:+ name;
     ReadNspMetadata := fun _ => (None, Some "invalid PFS0 magic");
     ReadXciMetadata := fun _ => (None, Some "invalid HFS0 magic");
     ReadSplitFileMetadata := fun _ => (None, Some "invalid PFS0 magic");
     gobEncode := fun _ => Some "gob";
     gobDecode := fun v => if String.eqb v "gob"
                           then Some (fallbackEntry "0100000000001000" 0)
                           else None |}.

(** A store written by release 1.3.0: the marker and one cached entry. *)
Definition staleKey : string := "/roms/dump.nsp|dump.nsp|1024".

Definition staleStore : DB :=
  {["deep-scan" := {["app_version" := "1.3.0"; staleKey := "gob"]}]}.

(** The states of two sample runs. *)
Definition afterUpdate3 : State :=
  default st0 (processLocalFiles noKeys [update3] st0).

Definition afterUpdate3TextDump : State :=
  default st0 (processLocalFiles noKeys [textFile; unnamedDump] afterUpdate3).

Definition afterUpdates35 : State :=
  default st0 (processLocalFiles noKeys [update3; update5] st0).

Definition afterDlc12 : State :=
  default st0 (processLocalFiles noKeys [dlcV1; dlcV2] st0).

Definition afterUpdates315 : State :=
  default st0 (processLocalFiles noKeys [update3; update1; update5] st0).

(** The greatest of [base] and the versions of the entries. *)
Definition maxVersion (entries : list (ExtendedFileInfo * ContentMetaAttributes))
           (base : Z) : Z :=
  foldl (fun acc fm => Z.max acc (Version (snd fm))) base entries.

Definition isUpdate (m : ContentMetaAttributes) : Prop :=
  HasSuffix (TitleId m) "800" = true.

(** The skip records the update branch writes. *)
Definition updateSkip (r : SkippedFile) : Prop :=
  r = oldUpdate \/ ReasonCode r = REASON_DUPLICATE.

(** [f] is the file stored at the version the record holds as latest. *)
Definition holdsLatest (t : SwitchGameFiles) (f : ExtendedFileInfo) : Prop :=
  LatestUpdate t <> 0 /\
  exists u, Updates t !! LatestUpdate t = Some u /\ ExtendedInfo u = f.

Definition afterBases : State :=
  default st0 (processLocalFiles noKeys [baseFirst; baseLater] st0).

Definition afterDlc122 : State :=
  default st0 (processLocalFiles noKeys [dlcV2; dlcV1; dlcV2again] st0).


Definition afterUpdate00 : State :=
  default st0 (processLocalFiles noKeys [update0; update0again] st0).

Definition isBase (m : ContentMetaAttributes) : Prop :=
  HasSuffix (TitleId m) "000" = true.

Definition isDlc (m : ContentMetaAttributes) : Prop :=
  HasSuffix (TitleId m) "800" = false /\ HasSuffix (TitleId m) "000" = false.

Definition sampleUpdate (v : Z) : ContentMetaAttributes :=
  {| TitleId := "0100000000001800"; Version := v; Type_ := "" |}.

Definition sampleBase (v : Z) : ContentMetaAttributes :=
  {| TitleId := "0100000000001000"; Version := v; Type_ := "" |}.

Definition sampleDlc (v : Z) : ContentMetaAttributes :=
  {| TitleId := "0100000000001001"; Version := v; Type_ := "" |}.

(** The value stored under [key] in the bucket of the cache. *)
Definition storedValue (store : DB) (key : string) : option string :=
  match store !! "deep-scan" with
  | Some b => b !! key
  | None => None
  end.

(** The store after [NewLocalSwitchDBManager] opened the stale one. *)
Definition openedStale : LocalSwitchDBManager := NewLocalSwitchDBManager staleStore.

(** A store whose bucket has entries and no marker. *)
Definition unmarkedStore : DB := {["deep-scan" := {[staleKey := "gob"]}]}.

Definition afterSegment01 : State :=
  default st0 (processLocalFiles noKeys [segment01] st0).

(* ===================================================================== *)
(** * The folder scan                                                     *)
(* ===================================================================== *)

(** One call that [filepath.Walk] makes of its function: the path, the
    file information (not looked at when there is an error) and the error. *)
Record WalkEntry := {
  walkPath : string;
  walkInfo : FileInfo;
  walkErr : option string
}.

(** The function [scanFolder] hands to [filepath.Walk].  It returns [nil] in
    every case, so the walk is never cut short; [sep] is
    [string(os.PathSeparator)]. *)
Definition scanVisit (sep folder : string) (recursive : bool)
           (files : list ExtendedFileInfo) (e : WalkEntry)
  : option (list ExtendedFileInfo) :=
  if String.eqb (walkPath e) folder then Some files
  else
    match walkErr e with
    | Some _ => Some files
    | None =>
        if IsDir (walkInfo e) then Some files
        else
          first ← slice_to (Name (walkInfo e)) 1;
          (* skip mac hidden files *)
          if String.eqb first "." then Some files
          else
            base ← slice_to (walkPath e) (len (walkPath e) - len (Name (walkInfo e)));
            if negb (String.eqb (TrimSuffix base sep) (TrimSuffix folder sep))
               && negb recursive
            then Some files
            else Some (files ++ [{| Info := walkInfo e; BaseFolder := base |}])
    end.

(** [scanFolder], over the calls the walk of [folder] makes. *)
Fixpoint scanFolder (sep folder : string) (recursive : bool)
         (visits : list WalkEntry) (files : list ExtendedFileInfo)
  : option (list ExtendedFileInfo) :=
  match visits with
  | [] => Some files
  | e :: rest =>
      files' ← scanVisit sep folder recursive files e;
      scanFolder sep folder recursive rest files'
  end.

(** The loop over the folders in [CreateLocalSwitchFilesDB]; [walk] gives
    the calls [filepath.Walk] makes for a folder. *)
Fixpoint scanFolders (sep : string) (walk : string -> list WalkEntry)
         (recursive : bool) (folders : list string) (files : list ExtendedFileInfo)
  : option (list ExtendedFileInfo) :=
  match folders with
  | [] => Some files
  | folder :: rest =>
      files' ← scanFolder sep folder recursive (walk folder) files;
      scanFolders sep walk recursive rest files'
  end.

(** [CreateLocalSwitchFilesDB], from the folders. *)
Definition CreateLocalSwitchFilesDBOfFolders (E : Environment) (sep : string)
           (walk : string -> list WalkEntry) (ldb : LocalSwitchDBManager)
           (folders : list string) (recursive : bool) : option (State * Z) :=
  files ← scanFolders sep walk recursive folders [];
  CreateLocalSwitchFilesDB E ldb files.

(** ** More vocabulary *)

(** A store in which the bucket of the cache, if there is one, has the
    marker of the application version. *)
Definition marked (store : DB) : Prop :=
  forall b, store !! "deep-scan" = Some b -> is_Some (b !! "app_version").

(** Every title id that a structural parser or the decoder of the cache can
    give has at least the four characters the classifier cuts off. *)
Definition longIds (cm : ContentMap) : Prop :=
  forall k m, (k, m) ∈ cm -> 4 <= len (TitleId m).

Definition parsersGiveLongIds (E : Environment) : Prop :=
  (forall path cm, fst (ReadNspMetadata E path) = Some cm -> longIds cm) /\
  (forall path cm, fst (ReadXciMetadata E path) = Some cm -> longIds cm) /\
  (forall path cm, fst (ReadSplitFileMetadata E path) = Some cm -> longIds cm) /\
  (forall v cm, gobDecode E v = Some cm -> longIds cm).

(** A file the loop can take without a panic: a directory, or a name that
    has at least two bytes once in lower case. *)
Definition sliceable (f : ExtendedFileInfo) : Prop :=
  IsDir (Info f) = true \/ 2 <= len (ToLower (Name (Info f))).

Definition isDlcOf (id : string) (m : ContentMetaAttributes) : Prop :=
  isDlc m /\ TitleId m = id.

(** A key set is loaded and the parser of single-file packages reads one
    Base entry out of every file. *)
Definition parsingKeys : Environment :=
  {| SwitchKeys := Some {["header_key" := "aeaab1ca08adf9be"]};
     SLM_VERSION := "1.4.0";
     Join := fun dir name => dir +:+ "/" +:+ name;
     ReadNspMetadata := fun _ => (Some (fallbackEntry "0100000000001000" 0), None);
     ReadXciMetadata := fun _ => (None, Some "invalid HFS0 magic");
     ReadSplitFileMetadata := fun _ => (None, Some "invalid PFS0 magic");
     gobEncode := fun _ => Some "gob";
     gobDecode := fun v => if String.eqb v "gob"
                           then Some (fallbackEntry "0100000000001000" 0)
                           else None |}.

(** The buckets other than the one of the cache are the same. *)
Definition sameOtherBuckets (store store' : DB) : Prop :=
  forall name, name <> "deep-scan" -> store' !! name = store !! name.

(** The entry the DLC branch stores for a file and its attributes. *)
Definition dlcEntry (fm : ExtendedFileInfo * ContentMetaAttributes) : SwitchFileInfo :=
  {| ExtendedInfo := fst fm; Metadata := withType (snd fm) "DLC" |}.

(** The versions of a sequence of entries, as a set. *)
Definition versionsOf (entries : list (ExtendedFileInfo * ContentMetaAttributes))
  : gset Z :=
  list_to_set (map (fun fm => Version (snd fm)) entries).

Definition afterUpdate3Then5 : State :=
  default st0 (processLocalFiles noKeys [update5] afterUpdate3).

Definition recordAfterUpdate3 : SwitchGameFiles :=
  default (newTitle false false) (titles afterUpdate3 !! gamePrefix).

(** The file [f] is what [scanVisit] makes of the call [e] for [folder]:
    a call without error for a path other than the folder, of a file that is
    no directory, whose name does not start with a dot, with the path
    without the name as base folder, which when the scan is not recursive is
    the folder itself, up to a trailing separator. *)
Definition collectedFrom (sep folder : string) (recursive : bool)
           (e : WalkEntry) (f : ExtendedFileInfo) : Prop :=
  walkPath e <> folder /\ walkErr e = None /\
  Info f = walkInfo e /\ IsDir (Info f) = false /\
  (exists first, slice_to (Name (Info f)) 1 = Some first /\ first <> ".") /\
  slice_to (walkPath e) (len (walkPath e) - len (Name (Info f))) = Some (BaseFolder f) /\
  (recursive = false -> TrimSuffix (BaseFolder f) sep = TrimSuffix folder sep).

(** A call as [filepath.Walk] makes it: the path ends in the name, and the
    name is not empty. *)
Definition walkLike (e : WalkEntry) : Prop :=
  HasSuffix (walkPath e) (Name (walkInfo e)) = true /\ 1 <= len (Name (walkInfo e)).

(** A sample walk of the folder "/roms": the folder, a package, a hidden
    file, a sub-folder and a package in it. *)
Definition sampleInfo (addr : N) (name : string) (dir : bool) : FileInfo :=
  {| Addr := addr; Name := name; Size := 1024; IsDir := dir |}.

Definition sampleWalk (folder : string) : list WalkEntry :=
  [ {| walkPath := "/roms"; walkInfo := sampleInfo 50 "roms" true; walkErr := None |};
    {| walkPath := "/roms/.DS_Store"; walkInfo := sampleInfo 51 ".DS_Store" false;
       walkErr := None |};
    {| walkPath := "/roms/Game [0100000000001000][v0].nsp";
       walkInfo := sampleInfo 52 "Game [0100000000001000][v0].nsp" false;
       walkErr := None |};
    {| walkPath := "/roms/sub"; walkInfo := sampleInfo 53 "sub" true; walkErr := None |};
    {| walkPath := "/roms/sub/Game [0100000000001800][v3].nsp";
       walkInfo := sampleInfo 54 "Game [0100000000001800][v3].nsp" false;
       walkErr := None |} ].

Definition sampleScan : list ExtendedFileInfo :=
  default [] (scanFolders "/" sampleWalk false ["/roms"] []).

(** The last two bytes of the name of a file, in lower case. *)
Definition lastTwo (f : ExtendedFileInfo) (a b : ascii) : Prop :=
  exists pre, chars (ToLower (Name (Info f))) = pre ++ [a; b].

(** The catalogue of the sample folder, scanned with its sub-folders. *)
Definition sampleScanDeep : list ExtendedFileInfo :=
  default [] (scanFolders "/" sampleWalk true ["/roms"] []).

Definition afterSampleScan : State :=
  default st0 (processLocalFiles noKeys sampleScanDeep st0).

Module RegexpFacts.
Import Regexp.

Section Sound.
Context {R : Type}.

Lemma orelse_Some (a b : option R) res :
      orelse a b = Some res -> a = Some res \/ (a = None /\ b = Some res).
Proof. destruct a; simpl; intros; [left | right]; auto. Qed.

Lemma orelse_is_Some (a b : option R) :
      is_Some a \/ is_Some b -> is_Some (orelse a b).
Proof. destruct a; simpl; intros [H | H]; eauto. destruct H; discriminate. Qed.

Lemma rep_sound (step : list ascii -> capture -> @cont R -> option R) D :
      step_sound step D ->
      forall hi lo, step_sound (rep step lo hi) (rep_denote D lo hi).
Proof.
      intros Hs hi. induction hi as [| hi IH]; intros lo s c k res H; simpl in *.
      - destruct (Nat.eqb_spec lo 0); [| discriminate].
        exists [], s, c. split_and!; done.
      - apply orelse_Some in H as [H | [_ H]].
        + apply Hs in H as (t1 & r1 & c1 & -> & HD & H).
          apply IH in H as (t2 & r2 & c2 & -> & HD2 & H).
          exists (t1 ++ t2), r2, c2. rewrite <- app_assoc. split; [done |].
          split; [| done]. right. exists t1, t2, c1. split_and!; done.
        + destruct (Nat.eqb_spec lo 0); [| discriminate].
          exists [], s, c. split_and!; [done | left; done | done].
Qed.

Lemma rep_complete (step : list ascii -> capture -> @cont R -> option R) D :
      step_complete step D ->
      forall hi lo, step_complete (rep step lo hi) (rep_denote D lo hi).
Proof.
      intros Hs hi. induction hi as [| hi IH]; intros lo s c k t rest c' -> HD Hk; simpl in *.
      - destruct HD as (-> & -> & ->). done.
      - apply orelse_is_Some. destruct HD as [(-> & -> & ->) | (t1 & t2 & c1 & -> & HD1 & HD2)].
        + right. done.
        + left. eapply (Hs _ _ _ t1 (t2 ++ rest)); [by rewrite app_assoc | exact HD1 |].
          eapply IH; eauto.
Qed.

Lemma run_sound r : step_sound (R := R) (run r) (denote r).
Proof.
      induction r as [a | p | r IH | r IH lo hi | r1 IH1 r2 IH2 | r IH];
        intros s c k res H; simpl in *.
      - destruct s as [| x s]; [discriminate |].
        destruct (Ascii.eqb_spec x a); [subst | discriminate].
        exists [a], s, c. auto.
      - destruct s as [| x s]; [discriminate |].
        destruct (p x) eqn:Hp; [| discriminate].
        exists [x], s, c. eauto 10.
      - apply orelse_Some in H as [H | [_ H]].
        + apply IH in H as (t & rest & c' & -> & HD & H). eauto 10.
        + exists [], s, c. auto.
      - eapply rep_sound; eauto.
      - apply IH1 in H as (t1 & r1' & c1 & -> & HD1 & H).
        apply IH2 in H as (t2 & r2' & c2 & -> & HD2 & H).
        exists (t1 ++ t2), r2', c2. rewrite <- app_assoc. eauto 10.
      - apply IH in H as (t & rest & c1 & -> & HD & H).
        rewrite length_app, Nat.add_sub, take_app_length in H.
        exists t, rest, (Some t). eauto 10.
Qed.

Lemma run_complete r : step_complete (R := R) (run r) (denote r).
Proof.
      induction r as [a | p | r IH | r IH lo hi | r1 IH1 r2 IH2 | r IH];
        intros s c k t rest c' -> HD Hk; simpl in *.
      - destruct HD as [-> ->]. simpl. by rewrite Ascii.eqb_refl.
      - destruct HD as (x & -> & Hp & ->). simpl. by rewrite Hp.
      - apply orelse_is_Some. destruct HD as [[-> ->] | HD]; [by right | left].
        eapply IH; eauto.
      - eapply rep_complete; eauto.
      - destruct HD as (t1 & t2 & c1 & -> & HD1 & HD2).
        eapply (IH1 _ _ _ t1 (t2 ++ rest)); [by rewrite app_assoc | exact HD1 |].
        eapply IH2; eauto.
      - destruct HD as [[c1 HD] ->].
        eapply IH; [done | exact HD |].
        by rewrite length_app, Nat.add_sub, take_app_length.
Qed.
End Sound.

Lemma find_sound r s cap :
    find r s = Some cap ->
    exists pre t post, s = pre ++ t ++ post /\ denote r t None cap.
Proof.
    induction s as [| x s IH]; simpl; unfold match_here.
    - destruct (run r [] None _) eqn:H; [| discriminate]. intros [= ->].
      apply run_sound in H as (t & rest & c' & Hs & HD & [= ->]).
      exists [], t, rest. auto.
    - destruct (run r (x :: s) None _) eqn:H.
      + intros [= ->]. apply run_sound in H as (t & rest & c' & Hs & HD & [= ->]).
        exists [], t, rest. auto.
      + intros H'. apply IH in H' as (pre & t & post & -> & HD).
        exists (x :: pre), t, post. auto.
Qed.

End RegexpFacts.

Module NameParserFacts.
Import Regexp RegexpFacts.

Lemma rep_denote_class p : forall hi lo t c c',
    rep_denote (denote (Class p)) lo hi t c c' <->
    forallb p t = true /\ (lo <= length t <= hi)%nat /\ c' = c.
Proof.
    induction hi as [| hi IH]; intros lo t c c'; simpl.
    - split.
      + intros (-> & -> & ->). simpl. split_and!; auto; try lia.
      + intros (_ & [Hlo Hhi] & ->). destruct t; simpl in *; [| lia].
        split_and!; auto; try lia.
    - split.
      + intros [(-> & -> & ->) | (t1 & t2 & c1 & -> & (x & -> & Hp & ->) & H)].
        * simpl. split_and!; auto; try lia.
        * apply IH in H as (Hall & Hlen & ->). simpl. rewrite Hp, Hall.
          split_and!; auto; lia.
      + intros (Hall & [Hlo Hhi] & ->). destruct t as [| x t]; simpl in *.
        * left. split_and!; auto; try lia.
        * apply andb_prop in Hall as [Hp Hall]. right.
          exists [x], t, c. split; [done |]. split; [by exists x |].
          apply IH. split_and!; auto; lia.
Qed.

Lemma denote_versionLike (pv : ascii -> bool) t cap :
    let r := Cat (Lit "[") (Cat (Opt (Class pv))
                   (Cat (Cap (Rep (Class is_digit) 1 10)) (Lit "]"))) in
    denote r t None cap <->
    exists v ds, t = "["%char :: v ++ ds ++ ["]"%char] /\
      (v = [] \/ exists x, v = [x] /\ pv x = true) /\
      forallb is_digit ds = true /\ (1 <= length ds <= 10)%nat /\ cap = Some ds.
Proof.
    cbn [denote]. split.
    - intros (t1 & t2 & c1 & -> & [-> ->] & t3 & t4 & c2 & -> & Hv & t5 & t6 & c3 & -> &
              [[c4 Hd] ->] & [-> ->]).
      apply rep_denote_class in Hd as (Hall & Hlen & _).
      destruct Hv as [[-> ->] | (x & -> & Hx & ->)].
      + exists [], t5. split_and!; auto; try lia.
      + exists [x], t5. split_and!; eauto; try lia.
    - intros (v & ds & -> & Hv & Hall & Hlen & ->).
      exists ["["%char], (v ++ ds ++ ["]"%char]), None. split_and!; auto; try lia.
      exists v, (ds ++ ["]"%char]), None. split; [done |]. split.
      { destruct Hv as [-> | (x & -> & Hx)]; [by left | right; eauto]. }
      exists ds, ["]"%char], (Some ds). split_and!; auto; try lia.
      exists None. apply rep_denote_class. auto.
Qed.

Lemma denote_titleIdRegex t cap :
    denote titleIdRegex t None cap <->
    exists tok, t = "["%char :: tok ++ ["]"%char] /\ length tok = 16%nat /\
      forallb is_titleId_char tok = true /\ cap = Some tok.
Proof.
    unfold titleIdRegex. cbn [denote]. split.
    - intros (t1 & t2 & c1 & -> & [-> ->] & t5 & t6 & c3 & -> & [[c4 Hd] ->] & [-> ->]).
      apply rep_denote_class in Hd as (Hall & Hlen & _).
      exists t5. split_and!; auto; try lia.
    - intros (tok & -> & Hlen & Hall & ->).
      exists ["["%char], (tok ++ ["]"%char]), None. split_and!; auto; try lia.
      exists tok, ["]"%char], (Some tok). split_and!; auto; try lia.
      exists None. apply rep_denote_class. split_and!; auto; lia.
Qed.

Lemma is_vV_cases x : is_vV x = true <-> x = "v"%char \/ x = "V"%char.
Proof.
    unfold is_vV. rewrite orb_true_iff.
    split; intros [H | H]; [left | right | left | right];
      first [by apply Ascii.eqb_eq | by apply Ascii.eqb_eq in H].
Qed.

Lemma denote_versionRegex t cap :
    denote versionRegex t None cap <-> exists ds, versionToken true t ds /\ cap = Some ds.
Proof.
    unfold versionRegex. rewrite denote_versionLike. unfold versionToken. split.
    - intros (v & ds & -> & Hv & Hall & Hlen & ->). exists ds. split; [| done].
      exists v. split_and!; auto; try lia.
      destruct Hv as [-> | (x & -> & [-> | ->]%is_vV_cases)]; auto.
    - intros (ds & (v & -> & Hv & Hall & Hlen) & ->). exists v, ds. split_and!; auto; try lia.
      destruct Hv as [-> | [-> | [_ ->]]]; [by left | right | right]; eauto.
Qed.

End NameParserFacts.

Module AtoiFacts.

Lemma chars_str l : chars (str l) = l.
Proof. apply list_ascii_of_string_of_list_ascii. Qed.

Lemma str_chars s : str (chars s) = s.
Proof. apply string_of_list_ascii_of_string. Qed.

Lemma digit_val_range c : is_digit c = true -> 0 <= digit_val c <= 9.
Proof.
    unfold is_digit, digit_val. intros [H1 H2]%andb_prop.
    apply N.leb_le in H1, H2. lia.
Qed.

Lemma fold_decimal_range ds : forallb is_digit ds = true ->
    forall acc k, 0 <= acc < 10 ^ Z.of_nat k ->
      0 <= fold_left (fun n c => n * 10 + digit_val c) ds acc
        < 10 ^ Z.of_nat (k + length ds).
Proof.
    induction ds as [| d ds IH]; simpl; intros Hall acc k Hacc.
    - by rewrite Nat.add_0_r.
    - apply andb_prop in Hall as [Hd Hall]. apply digit_val_range in Hd.
      replace (k + S (length ds))%nat with (S k + length ds)%nat by lia.
      apply IH; [done |]. rewrite Nat2Z.inj_succ, Z.pow_succ_r by lia. lia.
Qed.

Lemma decimal_range ds : forallb is_digit ds = true ->
    0 <= decimal ds < 10 ^ Z.of_nat (length ds).
Proof.
    intros Hall. apply (fold_decimal_range ds Hall 0 0%nat). simpl. lia.
Qed.

  (** [Atoi] on one to ten digits is their decimal value. *)
Lemma Atoi_digits ds :
    forallb is_digit ds = true -> (1 <= length ds <= 10)%nat ->
    Atoi (str ds) = Some (decimal ds).
Proof.
    intros Hall Hlen. unfold Atoi. rewrite chars_str.
    destruct ds as [| c r]; [simpl in Hlen; lia |].
    pose proof Hall as Hc. simpl in Hc. apply andb_prop in Hc as [Hc _].
    destruct (Ascii.eqb_spec c "-") as [-> | _]; [discriminate |].
    destruct (Ascii.eqb_spec c "+") as [-> | _]; [discriminate |].
    rewrite Hall.
    pose proof (decimal_range _ Hall) as Hr.
    assert (10 ^ Z.of_nat (length (c :: r)) <= 10 ^ 10) as Hp.
    { apply Z.pow_le_mono_r; lia. }
    assert (Hin : (int_min <=? decimal (c :: r)) && (decimal (c :: r) <=? int_max) = true).
    { apply andb_true_intro. unfold int_min, int_max.
      split; apply Z.leb_le; lia. }
    by rewrite Hin.
Qed.
End AtoiFacts.

Module FallbackFacts.
Import Regexp RegexpFacts NameParserFacts AtoiFacts.

Lemma parseVersion_sound name v :
    parseVersionFromFileName name = Some v ->
    exists pre t post ds, chars name = pre ++ t ++ post /\
      versionToken true t ds /\ v = decimal ds.
Proof.
    unfold parseVersionFromFileName, FindStringSubmatch.
    destruct (find versionRegex (chars name)) as [cap |] eqn:Hf; [| discriminate].
    apply find_sound in Hf as (pre & t & post & Hname & HD).
    apply denote_versionRegex in HD as (ds & Htok & ->).
    pose proof Htok as (v0 & _ & _ & Hall & Hlen).
    rewrite (Atoi_digits ds Hall Hlen). intros [= <-]. eauto 10.
Qed.


Lemma parseTitleId_sound name tid :
    parseTitleIdFromFileName name = Some tid ->
    exists pre tok post, chars name = pre ++ ("["%char :: tok ++ ["]"%char]) ++ post /\
      length tok = 16%nat /\ forallb is_titleId_char tok = true /\
      tid = ToLower (str tok).
Proof.
    unfold parseTitleIdFromFileName, FindStringSubmatch.
    destruct (find titleIdRegex (chars name)) as [cap |] eqn:Hf; [| discriminate].
    apply find_sound in Hf as (pre & t & post & Hname & HD).
    apply denote_titleIdRegex in HD as (tok & -> & Hlen & Hall & ->).
    intros [= <-]. eauto 10.
Qed.





Lemma fallback_inl file cm :
    fallback file = inl cm <->
    exists tid v, parseTitleIdFromFileName (Name (Info file)) = Some tid /\
                  parseVersionFromFileName (Name (Info file)) = Some v /\
                  cm = fallbackEntry tid v.
Proof.
    unfold fallback, fallbackEntry.
    destruct (parseTitleIdFromFileName (Name (Info file))) as [tid |],
             (parseVersionFromFileName (Name (Info file))) as [v |]; split.
    all: try (intros [= <-]; eauto; fail).
    all: try (intros (? & ? & [=] & [=] & ->); subst; done).
    all: try discriminate.
    all: try (intros (? & ? & ? & ? & _); discriminate).
Qed.

End FallbackFacts.

(* ===================================================================== *)
(** * Fallback name parsing (C7)                                          *)
(* ===================================================================== *)




(* ===================================================================== *)
(** * The resolver, case by case                                          *)
(* ===================================================================== *)

Module ResolverFacts.
Section WithEnvironment.
Variable E : Environment.

Lemma getGameMetadata_shallow ldb file filePath skipped :
      deepScanAvailable E = false ->
      getGameMetadata E ldb file filePath skipped = (fallback file, skipped, ldb).
Proof. intros H. unfold getGameMetadata. by rewrite H. Qed.

Lemma getGameMetadata_deep ldb file filePath skipped :
      deepScanAvailable E = true ->
      getGameMetadata E ldb file filePath skipped =
      let fileKey := fileKeyOf file filePath in
      let ldb1 := snd (cacheLookup E ldb fileKey) in
      match fst (cacheLookup E ldb fileKey) with
      | Some m => (inl m, skipped, ldb1)
      | None =>
          match invokedParser E file filePath with
          | Some (res, text) =>
              match fst res with
              | Some m => (inl m, snd (structural file res text skipped),
                           cacheStore E ldb1 fileKey m)
              | None => (fallback file, snd (structural file res text skipped), ldb1)
              end
          | None => (fallback file, skipped, ldb1)
          end
      end.
Proof.
      intros H. unfold getGameMetadata, invokedParser. rewrite H. cbn zeta.
      destruct (cacheLookup E ldb (fileKeyOf file filePath)) as [[m |] ldb1]; [done |].
      cbn [fst snd].
      destruct (HasSuffix _ "nsp" || HasSuffix _ "nsz").
      { unfold structural. destruct (ReadNspMetadata E filePath) as [[m |] [e |]]; done. }
      destruct (HasSuffix _ "xci" || HasSuffix _ "xcz").
      { unfold structural. destruct (ReadXciMetadata E filePath) as [[m |] [e |]]; done. }
      destruct (HasSuffix _ "00"); [| done].
      unfold structural. destruct (ReadSplitFileMetadata E filePath) as [[m |] [e |]]; done.
Qed.

Lemma structural_skipped file res text skipped :
      snd (structural file res text skipped) = skipped \/
      exists err, snd res = Some err /\
        snd (structural file res text skipped) = <[file := malformed text err]> skipped.
Proof. unfold structural. destruct (snd res); simpl; eauto. Qed.

    (** The resolver changes the skip list at most at the file it resolves,
        and then to a malformed-file record. *)
Lemma getGameMetadata_skipped ldb file filePath skipped :
      let sk := snd (fst (getGameMetadata E ldb file filePath skipped)) in
      sk = skipped \/
      exists r, sk = <[file := r]> skipped /\ ReasonCode r = REASON_MALFORMED_FILE.
Proof.
      destruct (deepScanAvailable E) eqn:Hd.
      - rewrite getGameMetadata_deep by done. cbn zeta.
        destruct (fst (cacheLookup _ _ _)); [by left |].
        destruct (invokedParser E file filePath) as [[res text] |]; [| by left].
        destruct (structural_skipped file res text skipped) as [-> | (err & _ & ->)].
        + destruct (fst res); by left.
        + destruct (fst res); right; eexists; split; done.
      - rewrite getGameMetadata_shallow by done. by left.
Qed.
End WithEnvironment.
End ResolverFacts.

(* ===================================================================== *)
(** * The classifier, step by step                                        *)
(* ===================================================================== *)

Module ClassifierFacts.

Lemma evolves_refl t : evolves t t.
Proof. unfold evolves. split_and!; eauto. lia. Qed.

Lemma evolves_trans t1 t2 t3 : evolves t1 t2 -> evolves t2 t3 -> evolves t1 t3.
Proof.
    intros (Hl1 & Hb1 & Hu1 & Hd1) (Hl2 & Hb2 & Hu2 & Hd2). unfold evolves.
    split_and!.
    - lia.
    - intros Hb. destruct (Hb1 Hb) as [Hb' Hf]. destruct (Hb2 Hb') as [Hb'' Hf'].
      split; congruence.
    - eauto.
    - intros id d Hd. destruct (Hd1 _ _ Hd) as (d' & Hd' & Hv).
      destruct (Hd2 _ _ Hd') as (d'' & Hd'' & Hv'). exists d''. split; [done |].
      destruct Hv as [-> | Hv], Hv' as [-> | Hv']; auto; right; lia.
Qed.

Lemma titlesEvolve_refl titles : titlesEvolve titles titles.
Proof. intros p t H. eauto using evolves_refl. Qed.

Lemma titlesEvolve_trans t1 t2 t3 :
    titlesEvolve t1 t2 -> titlesEvolve t2 t3 -> titlesEvolve t1 t3.
Proof.
    intros H1 H2 p t Hp. destruct (H1 _ _ Hp) as (t' & Hp' & He).
    destruct (H2 _ _ Hp') as (t'' & Hp'' & He'). eauto using evolves_trans.
Qed.

  (** Every branch of the classifier only adds to a record. *)
Lemma classifyTitle_evolves file m t s : evolves t (fst (classifyTitle file m t s)).
Proof.
    unfold classifyTitle.
    destruct (HasSuffix (TitleId m) "800").
    { cbn [withType Version].
      destruct (Updates t !! Version m) as [u |] eqn:Hu; [apply evolves_refl |].
      cbn [setUpdates LatestUpdate].
      destruct (LatestUpdate t <? Version m) eqn:Hlt; cbn [fst]; unfold evolves;
        cbn [setLatestUpdate setUpdates LatestUpdate BaseExist File Updates Dlc].
      - apply Z.ltb_lt in Hlt. split_and!; eauto; [lia |].
        intros v u Hv. rewrite lookup_insert_ne; [done | congruence].
      - split_and!; eauto; [lia |].
        intros v u Hv. rewrite lookup_insert_ne; [done | congruence]. }
    destruct (HasSuffix (TitleId m) "000").
    { destruct (BaseExist t) eqn:Hb; cbn [fst]; [apply evolves_refl |].
      unfold evolves. cbn [setBase LatestUpdate BaseExist File Updates Dlc].
      split_and!; eauto; [lia | congruence]. }
    assert (Hinstall :
              (forall d, Dlc t !! TitleId m = Some d -> Version (Metadata d) < Version m) ->
              evolves t (setDlc t (<[TitleId m :=
                           {| ExtendedInfo := file; Metadata := withType m "DLC" |}]>
                                     (Dlc t)))).
    { intros Hv. unfold evolves.
      cbn [setDlc LatestUpdate BaseExist File Updates Dlc].
      split_and!; eauto; [lia |].
      intros id d Hd. destruct (decide (id = TitleId m)) as [-> | Hne].
      - rewrite lookup_insert_eq. eexists. split; [done |]. right.
        cbn [Metadata withType Version]. apply Hv. congruence.
      - rewrite lookup_insert_ne by done. eauto. }
    destruct (Dlc t !! TitleId m) as [d |] eqn:Hd.
    - destruct (Version m <? Version (Metadata d)) eqn:Hlt; [apply evolves_refl |].
      destruct (Version m =? Version (Metadata d)) eqn:Heq; [apply evolves_refl |].
      cbn [fst]. apply Hinstall. intros d' [= <-].
      apply Z.ltb_ge in Hlt. apply Z.eqb_neq in Heq. lia.
    - cbn [fst]. apply Hinstall. intros d' [=].
Qed.

Lemma classifyEntry_inv file isSplit multi m titles skipped titles' skipped' :
    classifyEntry file isSplit multi m titles skipped = Some (titles', skipped') ->
    exists p, idPrefixOf (TitleId m) = Some p /\
      let t := default (newTitle multi isSplit) (titles !! p) in
      titles' = <[p := fst (classifyTitle file m t skipped)]> titles /\
      skipped' = snd (classifyTitle file m t skipped).
Proof.
    unfold classifyEntry. destruct (idPrefixOf (TitleId m)) as [p |]; [| discriminate].
    cbn [mbind option_bind].
    destruct (classifyTitle _ _ _ _) as [t' s'] eqn:Hc. intros [= <- <-].
    exists p. split; [done |]. cbn zeta. by rewrite Hc.
Qed.

Lemma classifyEntry_evolves file isSplit multi m titles skipped titles' skipped' :
    classifyEntry file isSplit multi m titles skipped = Some (titles', skipped') ->
    titlesEvolve titles titles'.
Proof.
    intros (p & _ & -> & _)%classifyEntry_inv q t Hq.
    destruct (decide (p = q)) as [-> | Hne].
    - rewrite lookup_insert_eq, Hq. cbn [default]. eauto using classifyTitle_evolves.
    - rewrite lookup_insert_ne by done. eauto using evolves_refl.
Qed.

  (** What a branch does to the skip list: nothing, a record for the file
      in hand, or the superseded record for the update held as latest. *)
Lemma classifyTitle_skipped file m t s :
    let s' := snd (classifyTitle file m t s) in
    s' = s \/ (exists r, s' = <[file := r]> s) \/
    (LatestUpdate t <> 0 /\
     s' = <[ExtendedInfo (default zeroSwitchFileInfo (Updates t !! LatestUpdate t))
            := oldUpdate]> s).
Proof.
    unfold classifyTitle.
    destruct (HasSuffix (TitleId m) "800").
    { cbn [withType Version].
      destruct (Updates t !! Version m) as [u |] eqn:Hu; cbn [snd]; [eauto |].
      cbn [setUpdates LatestUpdate Updates].
      destruct (LatestUpdate t <? Version m) eqn:Hlt; cbn [snd]; [| eauto].
      destruct (LatestUpdate t =? 0) eqn:Hz; [eauto |].
      right. right. apply Z.eqb_neq in Hz. split; [done |].
      apply Z.ltb_lt in Hlt. rewrite lookup_insert_ne by lia. done. }
    destruct (HasSuffix (TitleId m) "000").
    { destruct (BaseExist t); cbn [snd]; eauto. }
    destruct (Dlc t !! TitleId m) as [d |]; [| cbn [snd]; eauto].
    destruct (Version m <? Version (Metadata d)); [cbn [snd]; eauto |].
    destruct (Version m =? Version (Metadata d)); cbn [snd]; eauto.
Qed.

Lemma wfTitle_new multi isSplit : wfTitle (newTitle multi isSplit).
Proof.
    unfold wfTitle, newTitle. cbn. split_and!; [lia | done |].
    intros v [u Hu]. by rewrite lookup_empty in Hu.
Qed.

Lemma classifyTitle_wf file m t s : wfTitle t -> wfTitle (fst (classifyTitle file m t s)).
Proof.
    intros (Hnn & Hlatest & Hkeys). unfold classifyTitle.
    destruct (HasSuffix (TitleId m) "800").
    { cbn [withType Version].
      destruct (Updates t !! Version m) as [u |] eqn:Hu; cbn [fst]; [done |].
      cbn [setUpdates LatestUpdate].
      destruct (LatestUpdate t <? Version m) eqn:Hlt; cbn [fst]; unfold wfTitle;
        cbn [setLatestUpdate setUpdates LatestUpdate Updates].
      - apply Z.ltb_lt in Hlt. split_and!; [lia | |].
        + intros _. rewrite lookup_insert_eq. eauto.
        + intros v [u Hv]. destruct (decide (Version m = v)) as [-> | Hne]; [lia |].
          rewrite lookup_insert_ne in Hv by done. specialize (Hkeys v). 
          assert (v <= LatestUpdate t) by eauto. lia.
      - apply Z.ltb_ge in Hlt. split_and!; [lia | |].
        + intros Hne. destruct (Hlatest Hne) as [u Hu'].
          rewrite lookup_insert_ne by congruence. eauto.
        + intros v [u Hv]. destruct (decide (Version m = v)) as [<- | Hne]; [lia |].
          rewrite lookup_insert_ne in Hv by done. eauto. }
    destruct (HasSuffix (TitleId m) "000").
    { destruct (BaseExist t); cbn [fst]; done. }
    destruct (Dlc t !! TitleId m) as [d |]; [| done].
    destruct (Version m <? Version (Metadata d)); [done |].
    destruct (Version m =? Version (Metadata d)); done.
Qed.

Lemma classifyEntry_wf file isSplit multi m titles skipped titles' skipped' :
    classifyEntry file isSplit multi m titles skipped = Some (titles', skipped') ->
    wfTitles titles -> wfTitles titles'.
Proof.
    intros (p & _ & -> & _)%classifyEntry_inv Hwf q t.
    destruct (decide (p = q)) as [-> | Hne].
    - rewrite lookup_insert_eq. intros [= <-]. apply classifyTitle_wf.
      destruct (titles !! q) eqn:Hq; cbn [default]; eauto using wfTitle_new.
    - rewrite lookup_insert_ne by done. eauto.
Qed.
End ClassifierFacts.

(* ===================================================================== *)
(** * The classifier over a whole run                                     *)
(* ===================================================================== *)

Module RunFacts.
Import ClassifierFacts ResolverFacts.

  (** A property of the catalogue and the skip list that every entry step
      and every skip record of the file in hand keep is kept by a run. *)
Section Preservation.
Variable E : Environment.
Variable Q : ExtendedFileInfo -> Prop.
Variable P : TitlesMap -> SkippedMap -> Prop.

Hypothesis P_entry : forall g isSplit multi m t s t' s',
      Q g -> P t s -> classifyEntry g isSplit multi m t s = Some (t', s') -> P t' s'.
Hypothesis P_skip : forall g r t s, Q g -> P t s -> P t (<[g := r]> s).

Lemma classifyEntries_preserves g isSplit multi cm :
      Q g -> forall t s t' s', P t s ->
      classifyEntries g isSplit multi cm t s = Some (t', s') -> P t' s'.
Proof.
      intros HQ. induction cm as [| [k m] cm IH]; intros t s t' s' HP; simpl.
      - intros [= <- <-]. done.
      - destruct (classifyEntry g isSplit multi m t s) as [[t1 s1] |] eqn:Hstep;
          [| discriminate].
        cbn [mbind option_bind]. eauto.
Qed.

Lemma processFile_preserves st g st' :
      Q g -> P (titles st) (skipped st) -> processFile E st g = Some st' ->
      P (titles st') (skipped st').
Proof.
      intros HQ HP. unfold processFile.
      destruct (shapeOf g) as [[| | isSplit] |]; cbn [mbind option_bind];
        [| | | discriminate].
      - intros [= <-]. done.
      - intros [= <-]. cbn [titles skipped]. eauto.
      - pose proof (getGameMetadata_skipped E (mgr st) g
                      (Join E (BaseFolder g) (Name (Info g))) (skipped st)) as Hsk.
        cbn zeta in Hsk.
        destruct (getGameMetadata _ _ _ _ _) as [[res sk] ldb]. cbn [fst snd] in Hsk.
        assert (P (titles st) sk) as HP'.
        { destruct Hsk as [-> | (r & -> & _)]; eauto. }
        destruct res as [cm | err].
        + destruct (classifyEntries _ _ _ _ _ _) as [[t1 s1] |] eqn:Hc; [| discriminate].
          cbn [mbind option_bind]. intros [= <-]. cbn [titles skipped].
          eapply classifyEntries_preserves; eauto.
        + intros [= <-]. cbn [titles skipped]. destruct (sk !! g); eauto.
Qed.

Lemma processLocalFiles_preserves files :
      Forall Q files -> forall st st', P (titles st) (skipped st) ->
      processLocalFiles E files st = Some st' -> P (titles st') (skipped st').
Proof.
      induction 1 as [| g files HQ _ IH]; intros st st' HP; simpl.
      - intros [= <-]. done.
      - destruct (processFile E st g) as [st1 |] eqn:Hstep; [| discriminate].
        cbn [mbind option_bind]. eauto using processFile_preserves.
Qed.
End Preservation.

Lemma Forall_True (files : list ExtendedFileInfo) : Forall (fun _ => True) files.
Proof. by apply Forall_forall. Qed.

  (** Title records only grow during a run. *)
Lemma run_evolves E files st st' :
    processLocalFiles E files st = Some st' -> titlesEvolve (titles st) (titles st').
Proof.
    apply (processLocalFiles_preserves E (fun _ => True)
             (fun t _ => titlesEvolve (titles st) t)).
    - intros. eauto using titlesEvolve_trans, classifyEntry_evolves.
    - done.
    - apply Forall_True.
    - apply titlesEvolve_refl.
Qed.

Lemma entries_evolve g isSplit multi cm t s t' s' :
    classifyEntries g isSplit multi cm t s = Some (t', s') -> titlesEvolve t t'.
Proof.
    apply (classifyEntries_preserves (fun _ => True) (fun t0 _ => titlesEvolve t t0)).
    - intros. eauto using titlesEvolve_trans, classifyEntry_evolves.
    - done.
    - apply titlesEvolve_refl.
Qed.

Lemma isSkipped_insert (s : SkippedMap) g r f : isSkipped s f -> isSkipped (<[g := r]> s) f.
Proof.
    unfold isSkipped. intros H. destruct (decide (g = f)) as [-> | Hne].
    - rewrite lookup_insert_eq. eauto.
    - by rewrite lookup_insert_ne.
Qed.

Lemma classifyEntry_skipped_mono g isSplit multi m t s t' s' f :
    classifyEntry g isSplit multi m t s = Some (t', s') -> isSkipped s f -> isSkipped s' f.
Proof.
    intros (p & _ & _ & ->)%classifyEntry_inv Hf.
    destruct (classifyTitle_skipped g m (default (newTitle multi isSplit) (t !! p)) s)
      as [-> | [[r ->] | [_ ->]]]; auto using isSkipped_insert.
Qed.

  (** A file in the skip list stays in the skip list. *)
Lemma run_skipped_mono E files st st' f :
    processLocalFiles E files st = Some st' ->
    isSkipped (skipped st) f -> isSkipped (skipped st') f.
Proof.
    intros Hrun Hf.
    apply (processLocalFiles_preserves E (fun _ => True) (fun _ s => isSkipped s f))
      with (files := files) (st := st); auto using Forall_True, isSkipped_insert.
    intros. eauto using classifyEntry_skipped_mono.
Qed.

Lemma entries_skipped_mono g isSplit multi cm t s t' s' f :
    classifyEntries g isSplit multi cm t s = Some (t', s') ->
    isSkipped s f -> isSkipped s' f.
Proof.
    intros Hrun Hf.
    apply (classifyEntries_preserves (fun _ => True) (fun _ s => isSkipped s f))
      with (g := g) (isSplit := isSplit) (multi := multi) (cm := cm) (t := t) (s := s)
           (t' := t');
      auto using isSkipped_insert.
    intros. eauto using classifyEntry_skipped_mono.
Qed.

End RunFacts.

Module FrameFacts.
Import ClassifierFacts ResolverFacts RunFacts.

Lemma newTitle_inTitle multi isSplit f : ~ inTitle (newTitle multi isSplit) f.
Proof.
    unfold inTitle, inBase, inUpdates, inDlc, newTitle. cbn.
    intros [[[=] _] | [(v & u & H & _) | (id & d & H & _)]];
      by rewrite lookup_empty in H.
Qed.

Lemma inUpdates_insert t v u f :
    inUpdates (setUpdates t (<[v := u]> (Updates t))) f ->
    inUpdates t f \/ ExtendedInfo u = f.
Proof.
    intros (v0 & u0 & H & Hf). cbn in H.
    destruct (decide (v = v0)) as [-> | Hne].
    - rewrite lookup_insert_eq in H. right. congruence.
    - rewrite lookup_insert_ne in H by done. left. by exists v0, u0.
Qed.

Lemma inDlc_insert t id d f :
    inDlc (setDlc t (<[id := d]> (Dlc t))) f -> inDlc t f \/ ExtendedInfo d = f.
Proof.
    intros (id0 & d0 & H & Hf). cbn in H.
    destruct (decide (id = id0)) as [-> | Hne].
    - rewrite lookup_insert_eq in H. right. congruence.
    - rewrite lookup_insert_ne in H by done. left. by exists id0, d0.
Qed.

  (** A branch adds no reference to a file other than the one in hand. *)
Lemma classifyTitle_refs g m t s f :
    inTitle (fst (classifyTitle g m t s)) f -> inTitle t f \/ f = g.
Proof.
    unfold classifyTitle.
    destruct (HasSuffix (TitleId m) "800").
    { cbn [withType Version].
      destruct (Updates t !! Version m) as [u |] eqn:Hu; cbn [fst]; [auto |].
      cbn [setUpdates LatestUpdate].
      assert (Hins : forall t1,
                BaseExist t1 = BaseExist t -> File t1 = File t -> Dlc t1 = Dlc t ->
                Updates t1 = <[Version m := {| ExtendedInfo := g;
                                               Metadata := withType m "Update" |}]> (Updates t) ->
                inTitle t1 f -> inTitle t f \/ f = g).
      { intros t1 Hb Hfile Hd Hup [[H1 H2] | [(v0 & u0 & H & Hf) | (id & d & H & Hf)]].
        - left. left. split; congruence.
        - rewrite Hup in H. destruct (decide (Version m = v0)) as [<- | Hne].
          + rewrite lookup_insert_eq in H. right. injection H as <-. by rewrite <- Hf.
          + rewrite lookup_insert_ne in H by done. left. right. left. by exists v0, u0.
        - rewrite Hd in H. left. right. right. by exists id, d. }
      destruct (LatestUpdate t <? Version m); cbn [fst]; apply Hins; reflexivity. }
    destruct (HasSuffix (TitleId m) "000").
    { destruct (BaseExist t) eqn:Hb; cbn [fst]; [auto |].
      intros [[_ H] | [(v0 & u0 & H & Hf) | (id & d & H & Hf)]].
      - right. by rewrite <- H.
      - left. right. left. by exists v0, u0.
      - left. right. right. by exists id, d. }
    assert (Hinstall :
              inTitle (setDlc t (<[TitleId m :=
                         {| ExtendedInfo := g; Metadata := withType m "DLC" |}]> (Dlc t))) f ->
              inTitle t f \/ f = g).
    { intros [[H1 H2] | [(v0 & u0 & H & Hf) | H]].
      - left. left. by split.
      - left. right. left. by exists v0, u0.
      - apply inDlc_insert in H as [H | H]; [left; right; by right | right; done]. }
    destruct (Dlc t !! TitleId m) as [d |]; [| done].
    destruct (Version m <? Version (Metadata d)); [cbn [fst]; auto |].
    destruct (Version m =? Version (Metadata d)); cbn [fst]; auto.
Qed.

  (** A branch writes no skip record for a file that is neither the one in
      hand nor referenced from the record. *)
Lemma classifyTitle_frame g m t s f :
    g <> f -> wfTitle t -> ~ inTitle t f ->
    snd (classifyTitle g m t s) !! f = s !! f.
Proof.
    intros Hne (_ & Hlatest & _) Hnot.
    destruct (classifyTitle_skipped g m t s) as [-> | [[r ->] | [Hnz ->]]]; [done | |].
    - by rewrite lookup_insert_ne.
    - destruct (Hlatest Hnz) as [u Hu]. rewrite Hu. cbn [default].
      rewrite lookup_insert_ne; [done |]. intros Heq. apply Hnot.
      right. left. by exists (LatestUpdate t), u.
Qed.

Lemma classifyEntry_frame g isSplit multi m titles skipped titles' skipped' f :
    g <> f -> wfTitles titles -> ~ referenced titles f ->
    classifyEntry g isSplit multi m titles skipped = Some (titles', skipped') ->
    ~ referenced titles' f /\ skipped' !! f = skipped !! f.
Proof.
    intros Hne Hwf Hnot (p & _ & -> & ->)%classifyEntry_inv.
    set (t := default (newTitle multi isSplit) (titles !! p)).
    assert (wfTitle t /\ ~ inTitle t f) as [Hwt Hnt].
    { subst t. destruct (titles !! p) as [t0 |] eqn:Hp; cbn [default].
      - split; [eauto |]. intros H. apply Hnot. by exists p, t0.
      - split; [apply wfTitle_new | apply newTitle_inTitle]. }
    split; [| by apply classifyTitle_frame].
    intros (q & t' & Hq & Hin). destruct (decide (p = q)) as [<- | Hpq].
    - rewrite lookup_insert_eq in Hq. injection Hq as <-.
      apply classifyTitle_refs in Hin as [Hin | ->]; done.
    - rewrite lookup_insert_ne in Hq by done. apply Hnot. by exists q, t'.
Qed.

  (** A run over files other than [f] leaves [f] where it is: not
      referenced, and with the skip record it had, if any. *)
Lemma run_frame E files st st' f :
    Forall (fun g => g <> f) files ->
    wfTitles (titles st) -> ~ referenced (titles st) f ->
    processLocalFiles E files st = Some st' ->
    wfTitles (titles st') /\ ~ referenced (titles st') f /\
    skipped st' !! f = skipped st !! f.
Proof.
    intros Hall Hwf Hnot Hrun.
    apply (processLocalFiles_preserves E (fun g => g <> f)
             (fun t s => wfTitles t /\ ~ referenced t f /\ s !! f = skipped st !! f))
      with (files := files) (st := st); auto.
    - intros g isSplit multi m t s t' s' Hg (Hw & Hn & Hs) Hstep.
      destruct (classifyEntry_frame _ _ _ _ _ _ _ _ _ Hg Hw Hn Hstep) as [Hn' Hs'].
      split_and!; [by eapply classifyEntry_wf | done | congruence].
    - intros g r t s Hg (Hw & Hn & Hs). split_and!; [done | done |].
      by rewrite lookup_insert_ne.
Qed.

Lemma referenced_empty f : ~ referenced ∅ f.
Proof. intros (p & t & H & _). by rewrite lookup_empty in H. Qed.

Lemma wfTitles_empty : wfTitles ∅.
Proof. intros p t H. by rewrite lookup_empty in H. Qed.
End FrameFacts.

Module CatalogueFacts.

Lemma completes_default {A : Type} (o : option A) (d : A) :
    completes o = true -> o = Some (default d o).
Proof. by destruct o. Qed.

Lemma existsb_map_to_list `{Countable K} {A} (m : gmap K A) (q : A -> bool) :
    existsb (fun kv => q (snd kv)) (map_to_list m) = true <->
    exists k x, m !! k = Some x /\ q x = true.
Proof.
    rewrite existsb_exists. split.
    - intros ([k x] & Hin & Hq). apply list_elem_of_In, elem_of_map_to_list in Hin. eauto.
    - intros (k & x & Hm & Hq). exists (k, x). split; [| done].
      by apply list_elem_of_In, elem_of_map_to_list.
Qed.

Lemma inTitleb_spec t f : inTitleb t f = true <-> inTitle t f.
Proof.
    unfold inTitleb, inTitle, inBase, inUpdates, inDlc.
    rewrite !orb_true_iff, andb_true_iff, bool_decide_eq_true.
    pose proof (existsb_map_to_list (Updates t)
                  (fun u => bool_decide (ExtendedInfo u = f))) as HU.
    pose proof (existsb_map_to_list (Dlc t)
                  (fun d => bool_decide (ExtendedInfo d = f))) as HD.
    cbn beta in HU, HD. rewrite HU, HD.
    setoid_rewrite bool_decide_eq_true. tauto.
Qed.

Lemma referencedb_spec titles f : referencedb titles f = true <-> referenced titles f.
Proof.
    unfold referencedb, referenced.
    pose proof (existsb_map_to_list titles (fun t => inTitleb t f)) as HT.
    cbn beta in HT. rewrite HT. by setoid_rewrite inTitleb_spec.
Qed.

Lemma updateAt_referenced st p v f : updateAt st p v = Some f -> referenced (titles st) f.
Proof.
    unfold updateAt. destruct (titles st !! p) as [t |] eqn:Ht; [| discriminate].
    cbn [mbind option_bind]. destruct (Updates t !! v) as [u |] eqn:Hu; [| discriminate].
    intros [= <-]. exists p, t. split; [done |]. right. left. by exists v, u.
Qed.
End CatalogueFacts.

(** A sample run ends, in the state named for it. *)
Ltac run_completes :=
  apply CatalogueFacts.completes_default; vm_compute; reflexivity.

Module StepFacts.
Import ResolverFacts.

Lemma shapeOf_cases f :
    shapeOf f =
    if IsDir (Info f) then Some Ignored
    else match slice_from (ToLower (Name (Info f))) (len (ToLower (Name (Info f))) - 2) with
         | None => None
         | Some _ =>
             match partNumber f with
             | Some n => if n =? 0 then Some (Candidate true) else Some Ignored
             | None => if supportedExtension (ToLower (Name (Info f)))
                       then Some (Candidate false) else Some Unsupported
             end
         end.
Proof.
    unfold shapeOf, partNumber. destruct (IsDir (Info f)); [done |].
    destruct (slice_from _ _); done.
Qed.

Lemma processFile_ignored E st f :
    shapeOf f = Some Ignored -> processFile E st f = Some st.
Proof. intros H. unfold processFile. by rewrite H. Qed.

Lemma processFile_unsupported E st f :
    shapeOf f = Some Unsupported ->
    processFile E st f =
    Some {| mgr := mgr st; titles := titles st;
            skipped := <[f := skip REASON_UNSUPPORTED_TYPE "file type is not supported"]>
                         (skipped st) |}.
Proof. intros H. unfold processFile. by rewrite H. Qed.

  (** A file whose resolution fails: the catalogue is left as it is, and the
      file has a skip record, which is the one it already had, a
      malformed-file record, or an unrecognised-file record. *)
Lemma processFile_failed E st f isSplit err :
    shapeOf f = Some (Candidate isSplit) -> resolution E st f = inr err ->
    exists st1, processFile E st f = Some st1 /\ titles st1 = titles st /\
      exists r, skipped st1 !! f = Some r /\
        (skipped st !! f = None ->
         ReasonCode r = REASON_UNRECOGNISED \/ ReasonCode r = REASON_MALFORMED_FILE).
Proof.
    intros Hshape Hres. unfold processFile, resolution in *. rewrite Hshape.
    cbn [mbind option_bind].
    pose proof (getGameMetadata_skipped E (mgr st) f
                  (Join E (BaseFolder f) (Name (Info f))) (skipped st)) as Hsk.
    cbn zeta in Hsk.
    destruct (getGameMetadata _ _ _ _ _) as [[res sk] ldb]. cbn [fst snd] in *. subst res.
    eexists. split; [done |]. cbn [titles skipped]. split; [done |].
    destruct Hsk as [-> | (r & -> & Hr)].
    - destruct (skipped st !! f) as [r |] eqn:Hf.
      + exists r. split; [done | discriminate].
      + rewrite lookup_insert_eq. eexists. split; [done |]. intros _. by left.
    - rewrite !lookup_insert_eq. exists r. split; [done |]. intros _. by right.
Qed.

  (** A file whose resolution succeeds: its entries are classified, from a
      skip list that differs from the one before at this file at most. *)
Lemma processFile_classified E st f isSplit cm st1 :
    shapeOf f = Some (Candidate isSplit) -> resolution E st f = inl cm ->
    processFile E st f = Some st1 ->
    exists sk, (sk = skipped st \/ exists r, sk = <[f := r]> (skipped st)) /\
      classifyEntries f isSplit (1 <? Z.of_nat (length cm)) cm (titles st) sk
      = Some (titles st1, skipped st1).
Proof.
    intros Hshape Hres. unfold processFile, resolution in *. rewrite Hshape.
    cbn [mbind option_bind].
    pose proof (getGameMetadata_skipped E (mgr st) f
                  (Join E (BaseFolder f) (Name (Info f))) (skipped st)) as Hsk.
    cbn zeta in Hsk.
    destruct (getGameMetadata _ _ _ _ _) as [[res sk] ldb]. cbn [fst snd] in *. subst res.
    destruct (classifyEntries _ _ _ _ _ _) as [[t1 s1] |] eqn:Hc; [| discriminate].
    cbn [mbind option_bind]. intros [= <-]. cbn [titles skipped].
    exists sk. split; [| done]. destruct Hsk as [-> | (r & -> & _)]; eauto.
Qed.

Lemma processLocalFiles_cons E f rest st st' :
    processLocalFiles E (f :: rest) st = Some st' ->
    exists st1, processFile E st f = Some st1 /\ processLocalFiles E rest st1 = Some st'.
Proof.
    simpl. destruct (processFile E st f) as [st1 |]; [| discriminate]. eauto.
Qed.
End StepFacts.

(* ===================================================================== *)
(** * Filtering before the classifier (C9)                                *)
(* ===================================================================== *)

(** C9, as stated, fails: a segment of a split file with a number other than
    zero is passed over with no skip record at all. *)
Lemma nonzero_segment_counterexample :
  partNumber segment01 = Some 1 /\
  processLocalFiles noKeys [segment01] st0 = Some afterSegment01 /\
  ~ exists r, skipped afterSegment01 !! segment01 = Some r /\
              ReasonCode r = REASON_UNSUPPORTED_TYPE.
Proof.
  split; [vm_compute; reflexivity |].
  split; [run_completes |].
  intros (r & Hr & _). vm_compute in Hr. discriminate.
Qed.

(** C9, amended.  In a run over distinct files from the empty catalogue:
    a file that is no directory, does not end in a segment number and has
    none of the supported extensions ends with the skip record
    [REASON_UNSUPPORTED_TYPE]; a directory and a segment with a number other
    than zero end with no skip record; a file whose resolution fails ends
    with a skip record whose reason is [REASON_UNRECOGNISED] or
    [REASON_MALFORMED_FILE]; and none of them is referenced from a slot of a
    title record. *)
Theorem prefilter E ldb before f after st1 st' :
  NoDup (before ++ f :: after) ->
  processLocalFiles E before {| mgr := ldb; titles := ∅; skipped := ∅ |} = Some st1 ->
  processLocalFiles E (f :: after) st1 = Some st' ->
  ~ referenced (titles st1) f /\
  (IsDir (Info f) = false -> partNumber f = None ->
   supportedExtension (ToLower (Name (Info f))) = false ->
   skipped st' !! f = Some (skip REASON_UNSUPPORTED_TYPE "file type is not supported") /\
   ~ referenced (titles st') f) /\
  (IsDir (Info f) = true \/ (exists n, partNumber f = Some n /\ n <> 0) ->
   skipped st' !! f = None /\ ~ referenced (titles st') f) /\
  (forall isSplit err,
     shapeOf f = Some (Candidate isSplit) -> resolution E st1 f = inr err ->
     exists r, skipped st' !! f = Some r /\
       (ReasonCode r = REASON_UNRECOGNISED \/ ReasonCode r = REASON_MALFORMED_FILE) /\
       ~ referenced (titles st') f).
Proof.
  intros Hnd Hbefore Hrun.
  apply NoDup_app in Hnd as (_ & Hnb & [Hna _]%NoDup_cons).
  assert (Forall (fun g => g <> f) before) as Hb.
  { apply Forall_forall. intros g Hg ->. apply (Hnb f Hg). by left. }
  assert (Forall (fun g => g <> f) after) as Ha.
  { apply Forall_forall. intros g Hg ->. done. }
  destruct (FrameFacts.run_frame E before {| mgr := ldb; titles := ∅; skipped := ∅ |}
              st1 f Hb FrameFacts.wfTitles_empty
              (FrameFacts.referenced_empty f) Hbefore) as (Hwf1 & Hnr1 & Hs1).
  cbn [skipped] in Hs1. rewrite lookup_empty in Hs1.
  apply StepFacts.processLocalFiles_cons in Hrun as (st2 & Hstep & Hrest).
  assert (Hafter : titles st2 = titles st1 ->
            skipped st' !! f = skipped st2 !! f /\ ~ referenced (titles st') f).
  { intros Ht. rewrite <- Ht in Hwf1, Hnr1.
    destruct (FrameFacts.run_frame E after st2 st' f Ha Hwf1 Hnr1 Hrest) as (_ & ? & ?).
    done. }
  pose proof (StepFacts.shapeOf_cases f) as Hshape.
  split; [done |]. split_and!.
  - intros Hdir Hpart Hext. rewrite Hdir, Hpart, Hext in Hshape.
    destruct (slice_from _ _).
    + rewrite (StepFacts.processFile_unsupported E st1 f Hshape) in Hstep.
      injection Hstep as <-. destruct (Hafter eq_refl) as [-> Hn]. cbn [skipped].
      by rewrite lookup_insert_eq.
    + unfold processFile in Hstep. by rewrite Hshape in Hstep.
  - intros Hign.
    assert (shapeOf f = Some Ignored) as Hs.
    { rewrite Hshape. destruct Hign as [-> | (n & Hn & Hnz)]; [done |].
      destruct (IsDir (Info f)); [done |].
      destruct (slice_from _ _) eqn:Hsl.
      - rewrite Hn. by apply Z.eqb_neq in Hnz as ->.
      - unfold partNumber in Hn. by rewrite Hsl in Hn. }
    rewrite (StepFacts.processFile_ignored E st1 f Hs) in Hstep. injection Hstep as <-.
    destruct (Hafter eq_refl) as [-> Hn]. done.
  - intros isSplit err Hs Hres.
    destruct (StepFacts.processFile_failed E st1 f isSplit err Hs Hres)
      as (st2' & Hstep' & Ht & r & Hr & Hcode).
    rewrite Hstep in Hstep'. injection Hstep' as <-.
    destruct (Hafter Ht) as [Hsk Hn]. exists r. rewrite Hsk. split_and!; auto.
Qed.

Lemma prefilter_witness :
  skipped afterUpdate3TextDump !! textFile
  = Some (skip REASON_UNSUPPORTED_TYPE "file type is not supported") /\
  ~ referenced (titles afterUpdate3TextDump) textFile.
Proof.
  refine (proj1 (proj2 (prefilter noKeys (NewLocalSwitchDBManager ∅)
                          [update3] textFile [unnamedDump]
                          afterUpdate3 afterUpdate3TextDump _ _ _)) _ _ _).
  - apply (bool_decide_unpack _). vm_compute. exact I.
  - run_completes.
  - run_completes.
  - reflexivity.
  - vm_compute. reflexivity.
  - vm_compute. reflexivity.
Defined.

(* ===================================================================== *)
(** * The partition of the files (C1)                                     *)
(* ===================================================================== *)

Module CoverFacts.
Import ClassifierFacts RunFacts StepFacts.

Lemma isSkipped_insert_eq (s : SkippedMap) f r : isSkipped (<[f := r]> s) f.
Proof. unfold isSkipped. rewrite lookup_insert_eq. eauto. Qed.

Lemma classifyTitle_places f m t s :
    placed f m (fst (classifyTitle f m t s)) (snd (classifyTitle f m t s)).
Proof.
    unfold classifyTitle, placed.
    destruct (HasSuffix (TitleId m) "800").
    { cbn [withType Version].
      destruct (Updates t !! Version m) as [u |] eqn:Hu; cbn [fst snd];
        [left; apply isSkipped_insert_eq |].
      cbn [setUpdates LatestUpdate].
      destruct (LatestUpdate t <? Version m); cbn [fst snd];
        [| left; apply isSkipped_insert_eq].
      right. right. left. eexists _, _. cbn. rewrite lookup_insert_eq. done. }
    destruct (HasSuffix (TitleId m) "000").
    { destruct (BaseExist t); cbn [fst snd]; [left; apply isSkipped_insert_eq |].
      right. left. done. }
    assert (Hinstall :
              Dlc (setDlc t (<[TitleId m := {| ExtendedInfo := f;
                                               Metadata := withType m "DLC" |}]> (Dlc t)))
                !! TitleId m
              = Some {| ExtendedInfo := f; Metadata := withType m "DLC" |}).
    { cbn. by rewrite lookup_insert_eq. }
    destruct (Dlc t !! TitleId m) as [d |]; [| cbn [fst snd]; auto].
    destruct (Version m <? Version (Metadata d));
      [cbn [fst snd]; left; apply isSkipped_insert_eq |].
    destruct (Version m =? Version (Metadata d)); cbn [fst snd];
      [left; apply isSkipped_insert_eq | auto].
Qed.

  (** Once placed, a file stays in the skip list or in its slot, except that
      a DLC slot may come to hold a strictly higher version. *)
Lemma placed_stable f k m cm p t s titles titles' skipped' :
    (k, m) ∈ cm -> idPrefixOf (TitleId m) = Some p ->
    placed f m t s -> titles !! p = Some t ->
    titlesEvolve titles titles' ->
    (isSkipped s f -> isSkipped skipped' f) ->
    isSkipped skipped' f \/ referenced titles' f \/ displacedDlc cm titles'.
Proof.
    intros Hin Hp Hplaced Ht Hev Hmono.
    destruct (Hev p t Ht) as (t' & Ht' & Hl & Hb & Hu & Hd).
    destruct Hplaced as [Hs | [[Hbe Hbf] | [(v & u & Hv & Hf) | Hdlc]]].
    - left. auto.
    - right. left. exists p, t'. split; [done |]. left.
      destruct (Hb Hbe) as [Hbe' Hfile]. split; [done | congruence].
    - right. left. exists p, t'. split; [done |]. right. left. exists v, u. eauto.
    - destruct (Hd _ _ Hdlc) as (d' & Hd' & [-> | Hlt]).
      + right. left. exists p, t'. split; [done |]. right. right.
        by exists (TitleId m), {| ExtendedInfo := f; Metadata := withType m "DLC" |}.
      + right. right. exists k, m, p, t', d'. done.
Qed.

Lemma classifyEntry_places f isSplit multi m titles skipped titles' skipped' :
    classifyEntry f isSplit multi m titles skipped = Some (titles', skipped') ->
    exists p t, idPrefixOf (TitleId m) = Some p /\ titles' !! p = Some t /\
                placed f m t skipped'.
Proof.
    intros (p & Hp & -> & ->)%classifyEntry_inv.
    eexists p, _. rewrite lookup_insert_eq. split_and!; [done | done |].
    apply classifyTitle_places.
Qed.
End CoverFacts.

(** C1, as stated, fails.  Of two updates of one title, the older stays in
    the update map when the newer arrives and is put in the skip list as
    well: it is in both. *)
Lemma partition_counterexample :
  processLocalFiles noKeys [update3; update5] st0 = Some afterUpdates35 /\
  updateAt afterUpdates35 gamePrefix 3 = Some update3 /\
  skipped afterUpdates35 !! update3 = Some oldUpdate /\
  ~ partitioned afterUpdates35 update3.
Proof.
  assert (Hu : updateAt afterUpdates35 gamePrefix 3 = Some update3)
    by (vm_compute; reflexivity).
  assert (Hs : skipped afterUpdates35 !! update3 = Some oldUpdate)
    by (vm_compute; reflexivity).
  split; [run_completes |].
  split; [exact Hu |]. split; [exact Hs |].
  intros [[_ Hn] | [Hn _]].
  - apply Hn. unfold isSkipped. rewrite Hs. eauto.
  - apply Hn. eapply CatalogueFacts.updateAt_referenced. exact Hu.
Qed.

(** A DLC file displaced by a higher version is in neither. *)
Lemma displaced_dlc_in_neither :
  processLocalFiles noKeys [dlcV1; dlcV2] st0 = Some afterDlc12 /\
  ~ referenced (titles afterDlc12) dlcV1 /\ ~ isSkipped (skipped afterDlc12) dlcV1.
Proof.
  split; [run_completes |]. split.
  - intros H%CatalogueFacts.referencedb_spec. vm_compute in H. discriminate.
  - intros [r Hr]. vm_compute in Hr. discriminate.
Qed.

(** C1, amended.  When the run reaches a file that is no directory and no
    segment with a number other than zero, then at the end of the run: if
    the file has no supported shape, or its resolution failed, it is in the
    skip list; if its resolution gave at least one content entry, it is in
    the skip list, or referenced from a slot of a title record, or one of
    its entries is a DLC whose slot holds a strictly higher version. *)
Theorem partition_amended E f rest st st' :
  processLocalFiles E (f :: rest) st = Some st' ->
  (shapeOf f = Some Unsupported -> isSkipped (skipped st') f) /\
  (forall isSplit err,
     shapeOf f = Some (Candidate isSplit) -> resolution E st f = inr err ->
     isSkipped (skipped st') f) /\
  (forall isSplit cm,
     shapeOf f = Some (Candidate isSplit) -> resolution E st f = inl cm -> cm <> [] ->
     isSkipped (skipped st') f \/ referenced (titles st') f \/
     displacedDlc cm (titles st')).
Proof.
  intros (st1 & Hstep & Hrest)%StepFacts.processLocalFiles_cons.
  pose proof (RunFacts.run_skipped_mono E rest st1 st' f Hrest) as Hmono.
  split_and!.
  - intros Hs. apply Hmono.
    rewrite (StepFacts.processFile_unsupported E st f Hs) in Hstep.
    injection Hstep as <-. apply CoverFacts.isSkipped_insert_eq.
  - intros isSplit err Hs Hres. apply Hmono.
    destruct (StepFacts.processFile_failed E st f isSplit err Hs Hres)
      as (st2 & Hstep' & _ & r & Hr & _).
    rewrite Hstep in Hstep'. injection Hstep' as <-. unfold isSkipped. eauto.
  - intros isSplit cm Hs Hres Hne.
    destruct (StepFacts.processFile_classified E st f isSplit cm st1 Hs Hres Hstep)
      as (sk & _ & Hc).
    destruct cm as [| [k m] cm']; [done |]. simpl in Hc.
    destruct (classifyEntry f isSplit _ m (titles st) sk) as [[t1 s1] |] eqn:He;
      [| discriminate].
    cbn [mbind option_bind] in Hc.
    destruct (CoverFacts.classifyEntry_places _ _ _ _ _ _ _ _ He) as (p & t & Hp & Ht & Hpl).
    eapply (CoverFacts.placed_stable f k m ((k, m) :: cm') p t s1 t1);
      [by left | done | done | done | |].
    + eapply ClassifierFacts.titlesEvolve_trans;
        [eapply RunFacts.entries_evolve, Hc | eapply RunFacts.run_evolves, Hrest].
    + intros H. apply Hmono. eapply RunFacts.entries_skipped_mono; eauto.
Qed.

Lemma partition_amended_witness :
  isSkipped (skipped afterUpdate3TextDump) textFile.
Proof.
  refine (proj1 (partition_amended noKeys textFile [unnamedDump]
                   afterUpdate3 afterUpdate3TextDump _) _).
  - run_completes.
  - vm_compute. reflexivity.
Defined.

(* ===================================================================== *)
(** * Update resolution (C4)                                              *)
(* ===================================================================== *)

Module UpdateFacts.
Import ClassifierFacts.

  (** The update branch, spelled out. *)
Lemma classifyTitle_update file m t s :
    isUpdate m ->
    classifyTitle file m t s =
    match Updates t !! Version m with
    | Some u =>
        (t, <[file := skip REASON_DUPLICATE
                        ("duplicate update file (" +:+ fileName u +:+ ")")]> s)
    | None =>
        let t1 := setUpdates t (<[Version m := {| ExtendedInfo := file;
                                                  Metadata := withType m "Update" |}]>
                                  (Updates t)) in
        if LatestUpdate t <? Version m then
          (setLatestUpdate t1 (Version m),
           if LatestUpdate t =? 0 then s
           else <[ExtendedInfo (default zeroSwitchFileInfo (Updates t !! LatestUpdate t))
                  := oldUpdate]> s)
        else (t1, <[file := oldUpdate]> s)
    end.
Proof.
    unfold isUpdate. intros Hu. unfold classifyTitle. rewrite Hu. cbn [withType Version].
    destruct (Updates t !! Version m) eqn:Hv; [done |]. cbn zeta.
    cbn [setUpdates LatestUpdate Updates].
    destruct (LatestUpdate t <? Version m) eqn:Hlt; [| done].
    apply Z.ltb_lt in Hlt. rewrite lookup_insert_ne by lia. done.
Qed.

Lemma classifyTitle_latest_max file m t s :
    wfTitle t -> isUpdate m ->
    LatestUpdate (fst (classifyTitle file m t s)) = Z.max (LatestUpdate t) (Version m).
Proof.
    intros (_ & _ & Hkeys) Hu. rewrite classifyTitle_update by done.
    destruct (Updates t !! Version m) as [u |] eqn:Hv.
    - cbn [fst]. assert (Version m <= LatestUpdate t) by eauto. lia.
    - cbn zeta. destruct (LatestUpdate t <? Version m) eqn:Hlt; cbn.
      + apply Z.ltb_lt in Hlt. lia.
      + apply Z.ltb_ge in Hlt. lia.
Qed.

Lemma classifyTitleSeq_snoc entries fm t s :
    classifyTitleSeq (entries ++ [fm]) t s =
    classifyTitle (fst fm) (snd fm) (fst (classifyTitleSeq entries t s))
                  (snd (classifyTitleSeq entries t s)).
Proof. unfold classifyTitleSeq. by rewrite foldl_app. Qed.

Lemma classifyTitleSeq_wf entries t s :
    wfTitle t -> wfTitle (fst (classifyTitleSeq entries t s)).
Proof.
    intros Hwf. induction entries as [| fm entries IH] using rev_ind; [done |].
    rewrite classifyTitleSeq_snoc. by apply classifyTitle_wf.
Qed.

  (** After a sequence of update entries the latest version is the greatest
      of the versions seen and the one held before. *)
Lemma classifyTitleSeq_latest entries t s :
    wfTitle t -> Forall (fun fm => isUpdate (snd fm)) entries ->
    LatestUpdate (fst (classifyTitleSeq entries t s)) = maxVersion entries (LatestUpdate t).
Proof.
    intros Hwf. induction entries as [| fm entries IH] using rev_ind; [done |].
    intros [Hall Hfm%Forall_inv]%Forall_app.
    rewrite classifyTitleSeq_snoc. unfold maxVersion. rewrite foldl_app. cbn [foldl].
    rewrite classifyTitle_latest_max; [| by apply classifyTitleSeq_wf | done].
    f_equal. by apply IH.
Qed.

Lemma updateSkip_old : updateSkip oldUpdate.
Proof. by left. Qed.

Lemma updateSkip_dup text : updateSkip (skip REASON_DUPLICATE text).
Proof. by right. Qed.

  (** One update entry keeps this: a file is superseded or duplicate in the
      skip list, or it holds the latest version. *)
Lemma classifyTitle_update_settles g m t s f :
    wfTitle t -> isUpdate m ->
    (f = g \/ (exists r, s !! f = Some r /\ updateSkip r) \/ holdsLatest t f) ->
    (exists r, snd (classifyTitle g m t s) !! f = Some r /\ updateSkip r) \/
    holdsLatest (fst (classifyTitle g m t s)) f.
Proof.
    intros (Hnn & _ & _) Hu Hf. rewrite classifyTitle_update by done.
    assert (Hins : forall (s0 : SkippedMap) k r,
              updateSkip r ->
              (f = k \/ exists r0, s0 !! f = Some r0 /\ updateSkip r0) ->
              exists r0, <[k := r]> s0 !! f = Some r0 /\ updateSkip r0).
    { intros s0 k r Hr [-> | (r0 & Hr0 & Hu0)].
      - rewrite lookup_insert_eq. eauto.
      - destruct (decide (k = f)) as [-> | Hne].
        + rewrite lookup_insert_eq. eauto.
        + rewrite lookup_insert_ne by done. eauto. }
    destruct (Updates t !! Version m) as [u |] eqn:Hv; cbn [fst snd].
    - destruct Hf as [-> | [Hs | Hh]]; [left | left | by right];
        apply Hins; auto using updateSkip_dup.
    - cbn zeta. destruct (LatestUpdate t <? Version m) eqn:Hlt; cbn [fst snd].
      + apply Z.ltb_lt in Hlt.
        destruct Hf as [-> | [Hs | (Hnz & u & Hu' & Hfu)]].
        * right. split; [cbn; lia |]. cbn. rewrite lookup_insert_eq. eauto.
        * left. destruct (LatestUpdate t =? 0); [done |].
          apply Hins; auto using updateSkip_old.
        * left. apply Z.eqb_neq in Hnz as ->. rewrite Hu'. cbn [default].
          apply Hins; auto using updateSkip_old.
      + destruct Hf as [-> | [Hs | (Hnz & u & Hu' & Hfu)]].
        * left. apply Hins; auto using updateSkip_old.
        * left. apply Hins; auto using updateSkip_old.
        * right. split; [done |]. cbn. exists u. split; [| done].
          rewrite lookup_insert_ne; [done | congruence].
Qed.

  (** After a sequence of update entries, every file of the sequence is
      superseded or duplicate in the skip list, except the one that holds
      the latest version. *)
Lemma classifyTitleSeq_settles entries t s :
    wfTitle t -> Forall (fun fm => isUpdate (snd fm)) entries ->
    forall fm, fm ∈ entries ->
      (exists r, snd (classifyTitleSeq entries t s) !! fst fm = Some r /\ updateSkip r) \/
      holdsLatest (fst (classifyTitleSeq entries t s)) (fst fm).
Proof.
    intros Hwf. induction entries as [| x entries IH] using rev_ind.
    - intros _ fm Hin. by apply elem_of_nil in Hin.
    - intros [Hall Hx%Forall_inv]%Forall_app fm Hin.
      rewrite classifyTitleSeq_snoc.
      apply classifyTitle_update_settles; [by apply classifyTitleSeq_wf | done |].
      apply elem_of_app in Hin as [Hin | ->%list_elem_of_singleton]; [right | by left].
      destruct (IH Hall fm Hin); auto.
Qed.

End UpdateFacts.

(** C4.  An update entry at a version the record already has is skipped as
    a duplicate and changes nothing else; otherwise it is stored at its
    version, and if the version is strictly greater than the latest one, it
    becomes the latest and the file held as latest before, if there is one,
    gets the skip record "old update file, newer update exist locally",
    while if it is not greater, the incoming file gets that record.  So for
    every sequence of update entries of one title the latest version is the
    greatest seen, every file but the one holding it is superseded or
    duplicate in the skip list, and the latest version of a title never
    decreases during a run.  For the versions 3, 1, 5 in this order the
    latest is 5, held by the third file, and the first two are superseded. *)
Theorem update_resolution :
  (forall file m t s, isUpdate m ->
     let t' := fst (classifyTitle file m t s) in
     let s' := snd (classifyTitle file m t s) in
     LatestUpdate t <= LatestUpdate t' /\
     (forall u, Updates t !! Version m = Some u ->
        t' = t /\
        s' = <[file := skip REASON_DUPLICATE
                         ("duplicate update file (" +:+ fileName u +:+ ")")]> s) /\
     (Updates t !! Version m = None -> LatestUpdate t < Version m ->
        LatestUpdate t' = Version m /\
        Updates t' !! Version m
        = Some {| ExtendedInfo := file; Metadata := withType m "Update" |} /\
        (forall prev, LatestUpdate t <> 0 -> Updates t !! LatestUpdate t = Some prev ->
           s' = <[ExtendedInfo prev := oldUpdate]> s) /\
        (LatestUpdate t = 0 -> s' = s)) /\
     (Updates t !! Version m = None -> Version m <= LatestUpdate t ->
        LatestUpdate t' = LatestUpdate t /\
        Updates t' !! Version m
        = Some {| ExtendedInfo := file; Metadata := withType m "Update" |} /\
        s' = <[file := oldUpdate]> s)) /\
  (forall entries t s, wfTitle t -> Forall (fun fm => isUpdate (snd fm)) entries ->
     LatestUpdate (fst (classifyTitleSeq entries t s))
     = maxVersion entries (LatestUpdate t) /\
     forall fm, fm ∈ entries ->
       (exists r, snd (classifyTitleSeq entries t s) !! fst fm = Some r /\ updateSkip r) \/
       holdsLatest (fst (classifyTitleSeq entries t s)) (fst fm)) /\
  (forall E files st st' p t,
     processLocalFiles E files st = Some st' -> titles st !! p = Some t ->
     exists t', titles st' !! p = Some t' /\ LatestUpdate t <= LatestUpdate t') /\
  (processLocalFiles noKeys [update3; update1; update5] st0 = Some afterUpdates315 /\
   latestOf afterUpdates315 gamePrefix = Some 5 /\
   updateAt afterUpdates315 gamePrefix 5 = Some update5 /\
   skipped afterUpdates315 !! update3 = Some oldUpdate /\
   skipped afterUpdates315 !! update1 = Some oldUpdate /\
   skipped afterUpdates315 !! update5 = None).
Proof.
  split_and!.
  - intros file m t s Hu. cbn zeta.
    rewrite (UpdateFacts.classifyTitle_update file m t s Hu).
    split_and!.
    + pose proof (ClassifierFacts.classifyTitle_evolves file m t s) as [Hle _].
      by rewrite (UpdateFacts.classifyTitle_update file m t s Hu) in Hle.
    + intros u ->. done.
    + intros -> Hlt. cbn zeta. apply Z.ltb_lt in Hlt as Hlt'. rewrite Hlt'. cbn [fst snd].
      split_and!.
      * done.
      * cbn. by rewrite lookup_insert_eq.
      * intros prev Hnz ->. by apply Z.eqb_neq in Hnz as ->.
      * intros ->. done.
    + intros -> Hle. cbn zeta. apply Z.ltb_ge in Hle as Hle'. rewrite Hle'. cbn [fst snd].
      split_and!; [done | | done]. cbn. by rewrite lookup_insert_eq.
  - intros entries t s Hwf Hall. split.
    + by apply UpdateFacts.classifyTitleSeq_latest.
    + by apply UpdateFacts.classifyTitleSeq_settles.
  - intros E files st st' p t Hrun Hp.
    destruct (RunFacts.run_evolves E files st st' Hrun p t Hp) as (t' & Hp' & Hle & _).
    eauto.
  - run_completes.
  - vm_compute. reflexivity.
  - vm_compute. reflexivity.
  - vm_compute. reflexivity.
  - vm_compute. reflexivity.
  - vm_compute. reflexivity.
Qed.

Lemma update_resolution_witness :
  isUpdate (sampleUpdate 5) /\
  LatestUpdate (newTitle false false)
  <= LatestUpdate (fst (classifyTitle update5 (sampleUpdate 5) (newTitle false false) ∅)).
Proof.
  split; [reflexivity |].
  exact (proj1 (proj1 update_resolution update5 (sampleUpdate 5)
                  (newTitle false false) ∅ eq_refl)).
Defined.

(* ===================================================================== *)
(** * Base resolution (C5)                                                *)
(* ===================================================================== *)

Module SuffixFacts.

  (** An id that ends in 000 does not end in 800. *)
Lemma base_not_update m : isBase m -> HasSuffix (TitleId m) "800" = false.
Proof.
    unfold isBase, HasSuffix. cbn [String.length].
    intros [Hlen Heq%String.eqb_eq]%andb_prop. rewrite Hlen, Heq. reflexivity.
Qed.

Lemma classifyTitle_base file m t s :
    isBase m ->
    classifyTitle file m t s =
    if BaseExist t then
      (t, <[file := skip REASON_DUPLICATE
                      ("duplicate base file (" +:+ fileName (File t) +:+ ")")]> s)
    else (setBase t {| ExtendedInfo := file; Metadata := withType m "Base" |}, s).
Proof.
    intros Hb. unfold classifyTitle. rewrite (base_not_update m Hb), Hb. done.
Qed.

Lemma classifyTitle_dlc file m t s :
    isDlc m ->
    classifyTitle file m t s =
    let install :=
      (setDlc t (<[TitleId m := {| ExtendedInfo := file;
                                   Metadata := withType m "DLC" |}]> (Dlc t)), s) in
    match Dlc t !! TitleId m with
    | Some dlc =>
        if Version m <? Version (Metadata dlc) then
          (t, <[file := skip REASON_OLD_UPDATE
                          "old DLC file, newer version exist locally"]> s)
        else if Version m =? Version (Metadata dlc) then
          (t, <[file := skip REASON_DUPLICATE
                          ("duplicate DLC file (" +:+ fileName dlc +:+ ")")]> s)
        else install
    | None => install
    end.
Proof. intros [Hu Hb]. unfold classifyTitle. rewrite Hu, Hb. done. Qed.
End SuffixFacts.

(** C5.  A Base entry for a title whose record has no Base file is
    installed as the Base, with no skip record; a Base entry for a title
    whose record has one is skipped as a duplicate, with a message that
    names the installed file, and the record stays as it is, whatever the
    versions of the two are.  A Base file, once installed, stays the Base to
    the end of the run, so of two Base files of one title the earlier is the
    Base and the later is the duplicate. *)
Theorem base_resolution :
  (forall file m t s, isBase m ->
     (BaseExist t = false ->
      classifyTitle file m t s
      = (setBase t {| ExtendedInfo := file; Metadata := withType m "Base" |}, s)) /\
     (BaseExist t = true ->
      classifyTitle file m t s
      = (t, <[file := skip REASON_DUPLICATE
                        ("duplicate base file (" +:+ fileName (File t) +:+ ")")]> s))) /\
  (forall E files st st' p t,
     processLocalFiles E files st = Some st' ->
     titles st !! p = Some t -> BaseExist t = true ->
     exists t', titles st' !! p = Some t' /\ BaseExist t' = true /\ File t' = File t) /\
  (forall E first m1 later m2 p isSplit1 multi1 isSplit2 multi2
          titles0 skipped0 titles1 skipped1 ldb between st' titles2 skipped2,
     isBase m1 -> isBase m2 ->
     idPrefixOf (TitleId m1) = Some p -> idPrefixOf (TitleId m2) = Some p ->
     (forall t, titles0 !! p = Some t -> BaseExist t = false) ->
     classifyEntry first isSplit1 multi1 m1 titles0 skipped0 = Some (titles1, skipped1) ->
     processLocalFiles E between {| mgr := ldb; titles := titles1; skipped := skipped1 |}
     = Some st' ->
     classifyEntry later isSplit2 multi2 m2 (titles st') (skipped st')
     = Some (titles2, skipped2) ->
     baseOf {| mgr := mgr st'; titles := titles2; skipped := skipped2 |} p = Some first /\
     skipped2 !! later
     = Some (skip REASON_DUPLICATE
                  ("duplicate base file (" +:+ Name (Info first) +:+ ")"))) /\
  (processLocalFiles noKeys [baseFirst; baseLater] st0 = Some afterBases /\
   baseOf afterBases gamePrefix = Some baseFirst /\
   skipped afterBases !! baseFirst = None /\
   skipped afterBases !! baseLater
   = Some (skip REASON_DUPLICATE
                "duplicate base file (Game [0100000000001000][v0].nsp)")).
Proof.
  split_and!.
  - intros file m t s Hb. rewrite (SuffixFacts.classifyTitle_base file m t s Hb).
    split; intros ->; done.
  - intros E files st st' p t Hrun Hp Hb.
    destruct (RunFacts.run_evolves E files st st' Hrun p t Hp) as (t' & Hp' & _ & Hbase & _).
    destruct (Hbase Hb). eauto.
  - intros E first m1 later m2 p isSplit1 multi1 isSplit2 multi2
           titles0 skipped0 titles1 skipped1 ldb between st' titles2 skipped2
           Hb1 Hb2 Hp1 Hp2 Hnone Hfirst Hrun Hlater.
    apply ClassifierFacts.classifyEntry_inv in Hfirst as (p1 & Hp1' & -> & ->).
    assert (p1 = p) as -> by congruence.
    rewrite (SuffixFacts.classifyTitle_base first m1 _ _ Hb1) in Hrun.
    assert (BaseExist (default (newTitle multi1 isSplit1) (titles0 !! p)) = false) as Hne.
    { destruct (titles0 !! p) eqn:Hp; cbn [default]; eauto. }
    rewrite Hne in Hrun. cbn [fst snd] in Hrun.
    destruct (RunFacts.run_evolves E between _ st' Hrun p _ (lookup_insert_eq _ _ _))
      as (t' & Hp' & _ & Hbase & _).
    destruct (Hbase eq_refl) as [Hbe Hfile]. cbn [setBase File] in Hfile.
    apply ClassifierFacts.classifyEntry_inv in Hlater as (p2 & Hp2' & -> & ->).
    assert (p2 = p) as -> by congruence.
    rewrite Hp'. cbn [default].
    rewrite (SuffixFacts.classifyTitle_base later m2 t' _ Hb2), Hbe. cbn [fst snd].
    unfold baseOf. cbn [titles]. rewrite !lookup_insert_eq. cbn [mbind option_bind].
    rewrite Hbe. unfold fileName. rewrite Hfile. done.
  - run_completes.
  - vm_compute. reflexivity.
  - vm_compute. reflexivity.
  - vm_compute. reflexivity.
Qed.

Lemma base_resolution_witness :
  isBase (sampleBase 7) /\
  classifyTitle baseLater (sampleBase 7) (newTitle false false) ∅
  = (setBase (newTitle false false)
       {| ExtendedInfo := baseLater; Metadata := withType (sampleBase 7) "Base" |}, ∅).
Proof.
  split; [reflexivity |].
  exact (proj1 (proj1 base_resolution baseLater (sampleBase 7)
                  (newTitle false false) ∅ eq_refl) eq_refl).
Defined.

(* ===================================================================== *)
(** * DLC resolution (C6)                                                 *)
(* ===================================================================== *)

(** C6.  For a DLC entry whose id already has a stored entry: a strictly
    lower version is skipped with the reason [REASON_OLD_UPDATE], an equal
    version is skipped as a duplicate, and a strictly higher version takes
    the slot while the skip list stays exactly as it was, so the displaced
    file gets no skip record. *)
Theorem dlc_resolution file m t s dlc :
  isDlc m -> Dlc t !! TitleId m = Some dlc ->
  (Version m < Version (Metadata dlc) ->
   classifyTitle file m t s
   = (t, <[file := skip REASON_OLD_UPDATE
                     "old DLC file, newer version exist locally"]> s)) /\
  (Version m = Version (Metadata dlc) ->
   classifyTitle file m t s
   = (t, <[file := skip REASON_DUPLICATE
                     ("duplicate DLC file (" +:+ fileName dlc +:+ ")")]> s)) /\
  (Version (Metadata dlc) < Version m ->
   classifyTitle file m t s
   = (setDlc t (<[TitleId m := {| ExtendedInfo := file;
                                  Metadata := withType m "DLC" |}]> (Dlc t)), s) /\
   snd (classifyTitle file m t s) !! ExtendedInfo dlc = s !! ExtendedInfo dlc).
Proof.
  intros Hd Hdlc. rewrite (SuffixFacts.classifyTitle_dlc file m t s Hd), Hdlc. cbn zeta.
  split_and!.
  - intros Hlt. by apply Z.ltb_lt in Hlt as ->.
  - intros Heq. rewrite Heq, Z.ltb_irrefl, Z.eqb_refl. done.
  - intros Hgt.
    assert ((Version m <? Version (Metadata dlc)) = false) as -> by (apply Z.ltb_ge; lia).
    assert ((Version m =? Version (Metadata dlc)) = false) as -> by (apply Z.eqb_neq; lia).
    done.
Qed.

Lemma dlc_resolution_witness :
  classifyTitle dlcV2 (sampleDlc 2)
    (setDlc (newTitle false false)
       {["0100000000001001" := {| ExtendedInfo := dlcV1; Metadata := sampleDlc 1 |}]}) ∅
  = (setDlc (setDlc (newTitle false false)
               {["0100000000001001" := {| ExtendedInfo := dlcV1; Metadata := sampleDlc 1 |}]})
       (<["0100000000001001" := {| ExtendedInfo := dlcV2;
                                   Metadata := withType (sampleDlc 2) "DLC" |}]>
          {["0100000000001001" := {| ExtendedInfo := dlcV1; Metadata := sampleDlc 1 |}]}),
     ∅).
Proof.
  refine (proj1 (proj2 (proj2 (dlc_resolution dlcV2 (sampleDlc 2)
            (setDlc (newTitle false false)
               {["0100000000001001" := {| ExtendedInfo := dlcV1; Metadata := sampleDlc 1 |}]})
            ∅ {| ExtendedInfo := dlcV1; Metadata := sampleDlc 1 |} _ _)) _)).
  - split; reflexivity.
  - vm_compute. reflexivity.
  - vm_compute. reflexivity.
Defined.

(* ===================================================================== *)
(** * The update of version zero (C10)                                    *)
(* ===================================================================== *)



(** A second update of version 0 is a duplicate of the first and is not
    stored. *)
Lemma version_zero_twice :
  processLocalFiles noKeys [update0; update0again] st0 = Some afterUpdate00 /\
  updateAt afterUpdate00 gamePrefix 0 = Some update0 /\
  skipped afterUpdate00 !! update0again
  = Some (skip REASON_DUPLICATE
               "duplicate update file (Game [0100000000001800][v0].nsp)").
Proof. split_and!; [run_completes | vm_compute; reflexivity ..]. Qed.

(* ===================================================================== *)
(** * The cache (C2, C3, C8)                                              *)
(* ===================================================================== *)

Module CacheFacts.

Lemma cacheLookup_ops E ldb key :
    snd (cacheLookup E ldb key) = {| db := db ldb; ops := ops ldb ++ [OpView key] |}.
Proof. reflexivity. Qed.

Lemma cacheStore_ops E ldb key m :
    ops (cacheStore E ldb key m) = ops ldb ++ [OpUpdate key].
Proof. reflexivity. Qed.

  (** Opening a store whose bucket has the marker leaves the store as it is. *)
Lemma open_marked store b v :
    store !! "deep-scan" = Some b -> b !! "app_version" = Some v ->
    NewLocalSwitchDBManager store = {| db := store; ops := [] |}.
Proof. intros Hb Hv. unfold NewLocalSwitchDBManager. by rewrite Hb, Hv. Qed.

  (** Opening a store whose bucket has no marker deletes the bucket. *)
Lemma open_unmarked store b :
    store !! "deep-scan" = Some b -> b !! "app_version" = None ->
    db (NewLocalSwitchDBManager store) !! "deep-scan" = None.
Proof.
    intros Hb Hv. unfold NewLocalSwitchDBManager. rewrite Hb, Hv. cbn [db].
    apply lookup_delete_eq.
Qed.

Lemma cacheLookup_no_bucket E ldb key :
    db ldb !! "deep-scan" = None -> fst (cacheLookup E ldb key) = None.
Proof. intros H. unfold cacheLookup. by rewrite H. Qed.
End CacheFacts.

(** C2, on the code: the marker is read when the store is opened and is
    compared with nothing.  A store stamped by release 1.3.0 is left as it is
    when release 1.4.0 opens it, and the entry cached for a file is found
    again; only a bucket with no marker at all is deleted. *)
Theorem stale_cache_survives_open :
  (forall store b v,
     store !! "deep-scan" = Some b -> b !! "app_version" = Some v ->
     db (NewLocalSwitchDBManager store) = store) /\
  SLM_VERSION withKeys = "1.4.0" /\
  storedValue staleStore "app_version" = Some "1.3.0" /\
  db openedStale = staleStore /\
  storedValue (db openedStale) staleKey = Some "gob" /\
  fst (cacheLookup withKeys openedStale staleKey)
  = Some (fallbackEntry "0100000000001000" 0) /\
  fst (fst (getGameMetadata withKeys openedStale unnamedDump
              (Join withKeys (BaseFolder unnamedDump) (Name (Info unnamedDump))) ∅))
  = inl (fallbackEntry "0100000000001000" 0).
Proof.
  split_and!.
  - intros store b v Hb Hv. by rewrite (CacheFacts.open_marked store b v Hb Hv).
  - reflexivity.
  - vm_compute. reflexivity.
  - unfold openedStale.
    erewrite CacheFacts.open_marked; [reflexivity | apply lookup_singleton_eq |].
    apply lookup_insert_eq.
  - vm_compute. reflexivity.
  - vm_compute. reflexivity.
  - vm_compute. reflexivity.
Qed.

Lemma stale_cache_survives_open_witness :
  db (NewLocalSwitchDBManager staleStore) = staleStore.
Proof.
  refine (proj1 stale_cache_survives_open staleStore
            {["app_version" := "1.3.0"; staleKey := "gob"]} "1.3.0" _ _).
  - apply lookup_singleton_eq.
  - apply lookup_insert_eq.
Defined.

(** C3, as stated, fails: with a key set loaded, an empty cache and a parser
    that fails on the file, the resolver records the malformed-file reason
    and then returns the mapping read from the file name. *)
Lemma structural_failure_counterexample :
  deepScanAvailable withKeys = true /\
  invokedParser withKeys fallbackExampleFile "/roms/game.nsp"
  = Some ((None, Some "invalid PFS0 magic"), "failed to read NSP [reason: ") /\
  fst (fst (getGameMetadata withKeys (NewLocalSwitchDBManager ∅) fallbackExampleFile
              "/roms/game.nsp" ∅))
  = inl (fallbackEntry "0100abcdef123456" 65536) /\
  snd (fst (getGameMetadata withKeys (NewLocalSwitchDBManager ∅) fallbackExampleFile
              "/roms/game.nsp" ∅)) !! fallbackExampleFile
  = Some (skip REASON_MALFORMED_FILE "failed to read NSP [reason: invalid PFS0 magic]").
Proof. split_and!; vm_compute; reflexivity. Qed.

(** C3, amended.  When the key set is loaded, the cache misses, the shape
    of the name selects a structural parser, and that parser returns an error
    and no mapping, the resolver records the skip reason
    [REASON_MALFORMED_FILE] for the file, leaves the store as it is, and
    returns what the file-name fallback returns: it fails exactly when the
    fallback fails, and the malformed-file record stays in either case. *)
Theorem structural_failure_falls_back E ldb file filePath skipped text err :
  deepScanAvailable E = true ->
  fst (cacheLookup E ldb (fileKeyOf file filePath)) = None ->
  invokedParser E file filePath = Some ((None, Some err), text) ->
  getGameMetadata E ldb file filePath skipped
  = (fallback file, <[file := malformed text err]> skipped,
     {| db := db ldb; ops := ops ldb ++ [OpView (fileKeyOf file filePath)] |}) /\
  ReasonCode (malformed text err) = REASON_MALFORMED_FILE /\
  ((exists e, fst (fst (getGameMetadata E ldb file filePath skipped)) = inr e) <->
   (exists e, fallback file = inr e)).
Proof.
  intros Hd Hmiss Hp.
  assert (getGameMetadata E ldb file filePath skipped
          = (fallback file, <[file := malformed text err]> skipped,
             {| db := db ldb; ops := ops ldb ++ [OpView (fileKeyOf file filePath)] |}))
    as Heq.
  { rewrite (ResolverFacts.getGameMetadata_deep E ldb file filePath skipped Hd).
    cbn zeta. rewrite Hmiss, Hp. reflexivity. }
  split_and!; [exact Heq | reflexivity |]. by rewrite Heq.
Qed.

Lemma structural_failure_falls_back_witness :
  getGameMetadata withKeys (NewLocalSwitchDBManager ∅) unnamedDump "/roms/dump.nsp" ∅
  = (fallback unnamedDump,
     <[unnamedDump := malformed "failed to read NSP [reason: " "invalid PFS0 magic"]> ∅,
     {| db := db (NewLocalSwitchDBManager ∅);
        ops := ops (NewLocalSwitchDBManager ∅)
               ++ [OpView (fileKeyOf unnamedDump "/roms/dump.nsp")] |}).
Proof.
  refine (proj1 (structural_failure_falls_back withKeys (NewLocalSwitchDBManager ∅)
                   unnamedDump "/roms/dump.nsp" ∅
                   "failed to read NSP [reason: " "invalid PFS0 magic" _ _ _));
    vm_compute; reflexivity.
Defined.

(** C8.  The resolver writes to the store only when the mapping it returns
    was just produced by a structural parser: then it runs the read and
    the write transaction, and nothing else.  On a cache hit it runs the read
    transaction only and the store keeps its content; when the mapping or
    the failure comes from the file name, the store keeps its content and no
    write transaction is run; and without the header key it runs no
    transaction at all: manager and skip list are returned as they were. *)
Theorem cache_write_policy E ldb file filePath skipped :
  let key := fileKeyOf file filePath in
  let out := getGameMetadata E ldb file filePath skipped in
  let res := fst (fst out) in
  let ldb' := snd out in
  (deepScanAvailable E = false ->
   out = (fallback file, skipped, ldb) /\ sourceOf E ldb file filePath = FromFileName) /\
  (sourceOf E ldb file filePath = FromCache ->
   fst (cacheLookup E ldb key) = Some (match res with inl m => m | inr _ => [] end) /\
   (exists m, res = inl m) /\
   db ldb' = db ldb /\ ops ldb' = ops ldb ++ [OpView key]) /\
  (sourceOf E ldb file filePath = FromFileName ->
   res = fallback file /\ db ldb' = db ldb /\
   ops ldb' = ops ldb ++ (if deepScanAvailable E then [OpView key] else [])) /\
  (sourceOf E ldb file filePath = FromParser ->
   exists pr text m, invokedParser E file filePath = Some (pr, text) /\
     fst pr = Some m /\ res = inl m /\
     ldb' = cacheStore E (snd (cacheLookup E ldb key)) key m /\
     ops ldb' = ops ldb ++ [OpView key; OpUpdate key]) /\
  (forall k, OpUpdate k ∈ ops ldb' -> OpUpdate k ∉ ops ldb ->
     sourceOf E ldb file filePath = FromParser) /\
  (db ldb' <> db ldb -> sourceOf E ldb file filePath = FromParser).
Proof.
  cbn zeta. unfold sourceOf.
  destruct (deepScanAvailable E) eqn:Hd.
  - rewrite (ResolverFacts.getGameMetadata_deep E ldb file filePath skipped Hd). cbn zeta.
    destruct (fst (cacheLookup E ldb (fileKeyOf file filePath))) as [m |] eqn:Hc.
    + cbn [fst snd db ops cacheLookup]. split_and!; try discriminate; try done.
      * intros _. split_and!; eauto.
      * intros k [Hin | Heq%list_elem_of_singleton]%elem_of_app Hnot; [done | discriminate].
    + destruct (invokedParser E file filePath) as [[pr text] |] eqn:Hp.
      * destruct (fst pr) as [m |] eqn:Hm; cbn [fst snd].
        -- split_and!; try discriminate; try done.
           intros _. exists pr, text, m. split_and!; try done.
           rewrite CacheFacts.cacheStore_ops. cbn [snd cacheLookup ops].
           by rewrite <- app_assoc.
        -- cbn [cacheLookup db ops]. split_and!; try discriminate; try done.
           intros k [Hin | Heq%list_elem_of_singleton]%elem_of_app Hnot; [done | discriminate].
      * cbn [fst snd cacheLookup db ops]. split_and!; try discriminate; try done.
        intros k [Hin | Heq%list_elem_of_singleton]%elem_of_app Hnot; [done | discriminate].
  - rewrite (ResolverFacts.getGameMetadata_shallow E ldb file filePath skipped Hd).
    cbn [fst snd]. split_and!; try discriminate; try done.
    intros _. split_and!; [done | done |]. by rewrite app_nil_r.
Qed.

Lemma cache_write_policy_witness :
  getGameMetadata noKeys (NewLocalSwitchDBManager staleStore) fallbackExampleFile
                  "/roms/game.nsp" ∅
  = (fallback fallbackExampleFile, ∅, NewLocalSwitchDBManager staleStore).
Proof.
  exact (proj1 (proj1 (cache_write_policy noKeys (NewLocalSwitchDBManager staleStore)
                         fallbackExampleFile "/roms/game.nsp" ∅) eq_refl)).
Defined.

(* ===================================================================== *)
(** * Strings                                                             *)
(* ===================================================================== *)

Module StringFacts.

Lemma chars_length s : length (chars s) = String.length s.
Proof. induction s; simpl; congruence. Qed.

Lemma str_length l : String.length (str l) = length l.
Proof. induction l; simpl; congruence. Qed.

Lemma chars_app s1 s2 : chars (s1 +:+ s2) = chars s1 ++ chars s2.
Proof.
    unfold chars. induction s1 as [| c s1 IH]; [reflexivity |].
    cbn. by rewrite <- IH.
Qed.

Lemma chars_inj s1 s2 : chars s1 = chars s2 -> s1 = s2.
Proof.
    intros H. rewrite <- (AtoiFacts.str_chars s1), <- (AtoiFacts.str_chars s2).
    by rewrite H.
Qed.

Lemma chars_substring s : forall n m,
    chars (substring n m s) = take m (drop n (chars s)).
Proof.
    induction s as [| c s IH]; intros n m.
    - destruct n, m; reflexivity.
    - destruct n as [| n].
      + destruct m as [| m]; [reflexivity |]. simpl. f_equal. apply (IH 0%nat m).
      + simpl. apply IH.
Qed.

Lemma len_app s1 s2 : len (s1 +:+ s2) = len s1 + len s2.
Proof.
    unfold len. rewrite <- !chars_length, chars_app, length_app. lia.
Qed.

Lemma ToLower_length s : String.length (ToLower s) = String.length s.
Proof.
    unfold ToLower. rewrite str_length, length_map. apply chars_length.
Qed.

Lemma len_ToLower s : len (ToLower s) = len s.
Proof. unfold len. by rewrite ToLower_length. Qed.

  (** [HasSuffix]: the string ends in the suffix. *)
Lemma HasSuffix_spec s suffix :
    HasSuffix s suffix = true <-> exists pre, chars s = pre ++ chars suffix.
Proof.
    unfold HasSuffix. rewrite andb_true_iff, Nat.leb_le, String.eqb_eq. split.
    - intros [Hlen Hsub]. exists (take (String.length s - String.length suffix) (chars s)).
      apply (f_equal chars) in Hsub. rewrite chars_substring in Hsub.
      rewrite take_ge in Hsub by (rewrite length_drop, chars_length; lia).
      by rewrite <- Hsub, take_drop.
    - intros [pre Hpre].
      assert (String.length s = (length pre + String.length suffix)%nat) as Hlen.
      { rewrite <- (chars_length s), Hpre, length_app, chars_length. done. }
      split; [lia |]. apply chars_inj. rewrite chars_substring, Hpre, Hlen.
      rewrite Nat.add_sub, drop_app_length, take_ge; [done |].
      by rewrite chars_length.
Qed.

Lemma slice_to_Some s hi :
    0 <= hi <= len s ->
    slice_to s hi = Some (str (take (Z.to_nat hi) (chars s))).
Proof.
    intros [H1 H2]. unfold slice_to.
    assert ((0 <=? hi) && (hi <=? len s) = true) as ->.
    { apply andb_true_intro. split; apply Z.leb_le; lia. }
    f_equal. apply chars_inj. by rewrite chars_substring, AtoiFacts.chars_str.
Qed.

Lemma slice_to_None s hi : ~ (0 <= hi <= len s) -> slice_to s hi = None.
Proof.
    intros H. unfold slice_to.
    destruct ((0 <=? hi) && (hi <=? len s)) eqn:Hb; [| done].
    apply andb_prop in Hb as [H1%Z.leb_le H2%Z.leb_le]. lia.
Qed.

Lemma slice_from_Some s lo :
    0 <= lo <= len s ->
    slice_from s lo = Some (str (drop (Z.to_nat lo) (chars s))).
Proof.
    intros [H1 H2]. unfold slice_from.
    assert ((0 <=? lo) && (lo <=? len s) = true) as ->.
    { apply andb_true_intro. split; apply Z.leb_le; lia. }
    f_equal. apply chars_inj. rewrite chars_substring, AtoiFacts.chars_str.
    apply take_ge. rewrite length_drop, chars_length. lia.
Qed.

Lemma slice_from_None s lo : ~ (0 <= lo <= len s) -> slice_from s lo = None.
Proof.
    intros H. unfold slice_from.
    destruct ((0 <=? lo) && (lo <=? len s)) eqn:Hb; [| done].
    apply andb_prop in Hb as [H1%Z.leb_le H2%Z.leb_le]. lia.
Qed.
End StringFacts.

(* ===================================================================== *)
(** * More on the name parsers                                            *)
(* ===================================================================== *)

Module NameFacts.
Import Regexp RegexpFacts NameParserFacts AtoiFacts StringFacts.

Lemma code_lower_bound c : is_upper c = true -> (code c + 32 < 256)%N.
Proof. unfold is_upper. intros [_ H%N.leb_le]%andb_prop. lia. Qed.

Lemma lower_char_not_upper c : is_upper (lower_char c) = false.
Proof.
    unfold lower_char. destruct (is_upper c) eqn:Hu; [| done].
    pose proof (code_lower_bound c Hu) as Hlt.
    unfold is_upper in *. unfold code at 1 3.
    rewrite N_ascii_embedding by done.
    apply andb_prop in Hu as [H1%N.leb_le H2%N.leb_le].
    apply andb_false_intro2. apply N.leb_gt. lia.
Qed.

Lemma ToLower_no_upper s :
    forallb (fun c => negb (is_upper c)) (chars (ToLower s)) = true.
Proof.
    unfold ToLower. rewrite chars_str. apply forallb_forall.
    intros c (x & <- & _)%in_map_iff. by rewrite lower_char_not_upper.
Qed.

Lemma findVersion_digits name g :
    FindStringSubmatch versionRegex name = Some g ->
    exists ds, g = str ds /\ forallb is_digit ds = true /\ (1 <= length ds <= 10)%nat.
Proof.
    unfold FindStringSubmatch.
    destruct (find versionRegex (chars name)) as [cap |] eqn:Hf; [| discriminate].
    apply find_sound in Hf as (pre & t & post & _ & HD).
    apply denote_versionRegex in HD as (ds & (v0 & _ & _ & Hall & Hlen) & ->).
    intros [= <-]. eauto.
Qed.

Lemma run_not_bracket {R : Type} (r : re) x s c (k : @cont R) :
    x <> "["%char -> run (Cat (Lit "[") r) (x :: s) c k = None.
Proof. intros Hx. cbn [run]. by destruct (Ascii.eqb_spec x "["). Qed.

Lemma find_skip (r : re) pre s :
    "["%char ∉ pre ->
    find (Cat (Lit "[") r) (pre ++ s) = find (Cat (Lit "[") r) s.
Proof.
    induction pre as [| x pre IH]; [done |]. intros Hnot.
    apply not_elem_of_cons in Hnot as [Hx Hnot].
    cbn [app find]. unfold match_here. rewrite run_not_bracket by done. auto.
Qed.
End NameFacts.

(** X1.  [parseVersionFromFileName] fails only when the version pattern
    finds nothing: the conversion of the matched digits cannot fail, since
    at most ten digits fit an [int].  The version it returns lies between 0
    and 9999999999. *)
Theorem parseVersion_fails_only_without_match name :
  (parseVersionFromFileName name = None <->
   Regexp.FindStringSubmatch versionRegex name = None) /\
  (forall v, parseVersionFromFileName name = Some v -> 0 <= v <= 9999999999).
Proof.
  split.
  - unfold parseVersionFromFileName.
    destruct (Regexp.FindStringSubmatch versionRegex name) as [g |] eqn:Hg; [| done].
    destruct (NameFacts.findVersion_digits name g Hg) as (ds & -> & Hall & Hlen).
    rewrite (AtoiFacts.Atoi_digits ds Hall Hlen). split; discriminate.
  - intros v (pre & t & post & ds & _ & (v0 & _ & _ & Hall & Hlen) & ->)%FallbackFacts.parseVersion_sound.
    pose proof (AtoiFacts.decimal_range ds Hall) as Hr.
    assert (10 ^ Z.of_nat (length ds) <= 10 ^ 10) by (apply Z.pow_le_mono_r; lia).
    lia.
Qed.

(** X2.  The title id [parseTitleIdFromFileName] returns has exactly 16
    characters, none of them a capital letter, and the classifier can cut
    its four-character suffix off without a panic: its prefix has 12
    characters. *)
Theorem parseTitleId_shape name tid :
  parseTitleIdFromFileName name = Some tid ->
  String.length tid = 16%nat /\
  forallb (fun c => negb (is_upper c)) (chars tid) = true /\
  exists p, idPrefixOf tid = Some p /\ String.length p = 12%nat.
Proof.
  intros (pre & tok & post & _ & Hlen & _ & ->)%FallbackFacts.parseTitleId_sound.
  assert (String.length (ToLower (str tok)) = 16%nat) as H16.
  { by rewrite StringFacts.ToLower_length, StringFacts.str_length. }
  split; [done |]. split; [apply NameFacts.ToLower_no_upper |].
  unfold idPrefixOf.
  assert (len (ToLower (str tok)) = 16) as Hl by (unfold len; lia).
  rewrite StringFacts.slice_to_Some by lia. eexists. split; [done |].
  rewrite StringFacts.str_length, length_take, StringFacts.chars_length. lia.
Qed.

Lemma parseTitleId_shape_witness :
  String.length "0100abcdef123456" = 16%nat /\
  forallb (fun c => negb (is_upper c)) (chars "0100abcdef123456") = true /\
  exists p, idPrefixOf "0100abcdef123456" = Some p /\ String.length p = 12%nat.
Proof.
  refine (parseTitleId_shape (Name (Info fallbackExampleFile)) "0100abcdef123456" _).
  vm_compute. reflexivity.
Defined.

(** X3.  The title-id pattern takes the leftmost match: when the first
    opening bracket of a name opens a token of 16 characters of the class of
    the pattern, the title id is that token in lower case, whatever follows. *)
Theorem parseTitleId_first_bracket pre tok post :
  "["%char ∉ pre -> length tok = 16%nat -> forallb is_titleId_char tok = true ->
  parseTitleIdFromFileName (str (pre ++ "["%char :: tok ++ "]"%char :: post))
  = Some (ToLower (str tok)).
Proof.
  intros Hpre Hlen Hall.
  unfold parseTitleIdFromFileName, Regexp.FindStringSubmatch.
  rewrite AtoiFacts.chars_str. unfold titleIdRegex.
  rewrite NameFacts.find_skip by done.
  fold titleIdRegex.
  assert (Regexp.denote titleIdRegex ("["%char :: tok ++ ["]"%char]) None (Some tok)) as HD.
  { apply NameParserFacts.denote_titleIdRegex. exists tok. done. }
  assert (is_Some (Regexp.match_here titleIdRegex ("["%char :: tok ++ "]"%char :: post)))
    as [cap Hcap].
  { eapply (RegexpFacts.run_complete titleIdRegex _ _ _
              ("["%char :: tok ++ ["]"%char]) post); [| exact HD | done].
    cbn. by rewrite <- app_assoc. }
  assert (Regexp.find titleIdRegex ("["%char :: tok ++ "]"%char :: post) = Some cap) as ->.
  { cbn [Regexp.find]. by rewrite Hcap. }
  apply RegexpFacts.run_sound in Hcap as (t & rest & c' & Heq & HD' & [= <-]).
  apply NameParserFacts.denote_titleIdRegex in HD' as (tok' & -> & Hlen' & _ & ->).
  cbn in Heq. injection Heq as Heq. rewrite <- app_assoc in Heq.
  apply app_inj_1 in Heq as [-> _]; [done | congruence].
Qed.

Lemma parseTitleId_first_bracket_witness :
  parseTitleIdFromFileName
    (str (chars "Some Game " ++ "["%char :: chars "0100ABCDEF123456"
            ++ "]"%char :: chars "[v65536].nsp"))
  = Some (ToLower (str (chars "0100ABCDEF123456"))).
Proof.
  refine (parseTitleId_first_bracket (chars "Some Game ") (chars "0100ABCDEF123456")
            (chars "[v65536].nsp") _ _ _).
  - apply (bool_decide_unpack _). vm_compute. exact I.
  - reflexivity.
  - vm_compute. reflexivity.
Defined.

(** X4.  [ParseTitleNameFromFileName] returns the part of the name before
    its first opening bracket: the name is the result followed by nothing or
    by text that starts with the bracket, the result has no bracket in it,
    and a name without a bracket is returned whole. *)
Theorem ParseTitleName_prefix name :
  ("["%char ∉ chars (ParseTitleNameFromFileName name)) /\
  (exists rest, chars name = chars (ParseTitleNameFromFileName name) ++ rest /\
     (rest = [] \/ exists rest', rest = "["%char :: rest')) /\
  ("["%char ∉ chars name -> ParseTitleNameFromFileName name = name) /\
  ParseTitleNameFromFileName (ParseTitleNameFromFileName name)
  = ParseTitleNameFromFileName name.
Proof.
  unfold ParseTitleNameFromFileName. rewrite !AtoiFacts.chars_str.
  assert (Hnot : forall l, "["%char ∉ before_bracket l).
  { induction l as [| c l IH]; cbn; [apply not_elem_of_nil |].
    destruct (Ascii.eqb_spec c "["); [apply not_elem_of_nil |].
    by apply not_elem_of_cons. }
  assert (Hid : forall l, "["%char ∉ l -> before_bracket l = l).
  { induction l as [| c l IH]; [done |]. intros [Hc Hl]%not_elem_of_cons. cbn.
    destruct (Ascii.eqb_spec c "["); [congruence |]. by rewrite IH. }
  assert (Hsplit : forall l, exists rest, l = before_bracket l ++ rest /\
                     (rest = [] \/ exists rest', rest = "["%char :: rest')).
  { induction l as [| c l (rest & IH & Hrest)]; [exists []; auto |]. cbn.
    destruct (Ascii.eqb_spec c "[") as [-> | Hne].
    - exists ("["%char :: l). eauto.
    - exists rest. cbn. by rewrite <- IH. }
  split_and!.
  - apply Hnot.
  - apply Hsplit.
  - intros H. rewrite Hid by done. apply AtoiFacts.str_chars.
  - f_equal. apply Hid, Hnot.
Qed.

(* ===================================================================== *)
(** * More on the cache                                                   *)
(* ===================================================================== *)

Module StoreFacts.
Import StringFacts ResolverFacts.

Lemma fileKey_has_bar file filePath :
    "|"%char ∈ chars (fileKeyOf file filePath).
Proof.
    unfold fileKeyOf. rewrite chars_app. apply elem_of_app. right.
    rewrite chars_app. apply elem_of_app. left. cbn. by left.
Qed.

Lemma fileKey_not_marker file filePath : fileKeyOf file filePath <> "app_version".
Proof.
    intros H. pose proof (fileKey_has_bar file filePath) as Hbar. rewrite H in Hbar.
    revert Hbar. apply (bool_decide_unpack _). vm_compute. exact I.
Qed.

Lemma fileKey_nonempty file filePath : 0 < len (fileKeyOf file filePath).
Proof.
    pose proof (fileKey_has_bar file filePath) as Hbar. unfold len.
    rewrite <- chars_length. destruct (chars (fileKeyOf file filePath)); cbn; [| lia].
    by apply elem_of_nil in Hbar.
Qed.

Lemma Put_Some b key value :
    0 < len key -> len key <= MaxKeySize -> len value <= MaxValueSize ->
    Put b key value = Some (<[key := value]> b).
Proof.
    intros H0 Hk Hv. unfold Put.
    assert ((len key =? 0) = false) as -> by (apply Z.eqb_neq; lia).
    assert ((MaxKeySize <? len key) = false) as -> by (apply Z.ltb_ge; lia).
    assert ((MaxValueSize <? len value) = false) as -> by (apply Z.ltb_ge; lia).
    done.
Qed.

Lemma Put_inv b key value b' : Put b key value = Some b' -> b' = <[key := value]> b.
Proof.
    unfold Put. destruct (_ || _); [discriminate |]. by intros [= <-].
Qed.

  (** The store after the write transaction: as before, or with the bucket
      of the cache replaced by one that has the new entry on top of the old
      bucket or of a new one. *)
Lemma cacheStore_db E ldb key m :
    db (cacheStore E ldb key m) = db ldb \/
    exists bytes b,
      gobEncode E m = Some bytes /\
      db (cacheStore E ldb key m) = <["deep-scan" := <[key := bytes]> b]> (db ldb) /\
      (db ldb !! "deep-scan" = Some b \/
       (db ldb !! "deep-scan" = None /\
        b = default ∅ (Put ∅ "app_version" (SLM_VERSION E)))).
Proof.
    unfold cacheStore. cbn [db].
    destruct (gobEncode E m) as [bytes |]; [| by left].
    destruct (Put _ key bytes) as [b' |] eqn:Hput; [| by left].
    right. apply Put_inv in Hput as ->. cbn [from_option id].
    destruct (db ldb !! "deep-scan") as [b |] eqn:Hb; eauto 10.
Qed.

  (** The manager the resolver returns: the one it got, the one after the
      read transaction, or the one after the read and the write. *)
Lemma getGameMetadata_mgr E ldb file filePath skipped :
    let key := fileKeyOf file filePath in
    let ldb' := snd (getGameMetadata E ldb file filePath skipped) in
    (deepScanAvailable E = false /\ ldb' = ldb) \/
    (deepScanAvailable E = true /\ ldb' = snd (cacheLookup E ldb key)) \/
    (deepScanAvailable E = true /\
     exists m, ldb' = cacheStore E (snd (cacheLookup E ldb key)) key m).
Proof.
    cbn zeta. destruct (deepScanAvailable E) eqn:Hd.
    - right. rewrite getGameMetadata_deep by done. cbn zeta.
      destruct (fst (cacheLookup _ _ _)); [by left |].
      destruct (invokedParser E file filePath) as [[res text] |]; [| by left].
      destruct (fst res); [right; eauto | by left].
    - left. by rewrite getGameMetadata_shallow.
Qed.

Lemma processFile_mgr E st f st' :
    processFile E st f = Some st' ->
    mgr st' = mgr st \/
    mgr st' = snd (getGameMetadata E (mgr st) f
                     (Join E (BaseFolder f) (Name (Info f))) (skipped st)).
Proof.
    unfold processFile.
    destruct (shapeOf f) as [[| | isSplit] |]; cbn [mbind option_bind];
      [| | | discriminate].
    - intros [= <-]. by left.
    - intros [= <-]. by left.
    - destruct (getGameMetadata _ _ _ _ _) as [[res sk] ldb]. cbn [snd].
      destruct res as [cm | err].
      + destruct (classifyEntries _ _ _ _ _ _) as [[t1 s1] |]; [| discriminate].
        cbn [mbind option_bind]. intros [= <-]. by right.
      + intros [= <-]. by right.
Qed.

  (** What every call of the resolver keeps of the manager, a run keeps. *)
Lemma run_mgr_preserves E (P : LocalSwitchDBManager -> Prop) :
    (forall ldb file filePath skipped,
       P ldb -> P (snd (getGameMetadata E ldb file filePath skipped))) ->
    forall files st st', P (mgr st) -> processLocalFiles E files st = Some st' ->
    P (mgr st').
Proof.
    intros Hstep files. induction files as [| f files IH]; intros st st' HP; simpl.
    - intros [= <-]. done.
    - destruct (processFile E st f) as [st1 |] eqn:Hf; [| discriminate].
      cbn [mbind option_bind]. apply IH.
      destruct (processFile_mgr E st f st1 Hf) as [-> | ->]; auto.
Qed.

Lemma marked_open store : marked (db (NewLocalSwitchDBManager store)).
Proof.
    unfold NewLocalSwitchDBManager, marked. cbn [db].
    destruct (store !! "deep-scan") as [b |] eqn:Hb.
    - destruct (b !! "app_version") as [v |] eqn:Hv.
      + intros b'. rewrite Hb. intros [= <-]. eauto.
      + intros b'. by rewrite lookup_delete_eq.
    - intros b'. by rewrite Hb.
Qed.

Lemma open_marked_id store : marked store -> db (NewLocalSwitchDBManager store) = store.
Proof.
    intros Hm. unfold NewLocalSwitchDBManager. cbn [db].
    destruct (store !! "deep-scan") as [b |] eqn:Hb; [| done].
    destruct (Hm b Hb) as [v ->]. done.
Qed.

Lemma marked_cacheStore E ldb file filePath m :
    len (SLM_VERSION E) <= MaxValueSize ->
    marked (db ldb) -> marked (db (cacheStore E ldb (fileKeyOf file filePath) m)).
Proof.
    intros Hlen Hm.
    destruct (cacheStore_db E ldb (fileKeyOf file filePath) m)
      as [-> | (bytes & b & _ & -> & Hb)]; [done |].
    intros b'. rewrite lookup_insert_eq. intros [= <-].
    rewrite lookup_insert_ne by (apply fileKey_not_marker).
    destruct Hb as [Hb | [_ ->]]; [eauto |].
    rewrite Put_Some; [| done | done | done].
    cbn [from_option id]. rewrite lookup_insert_eq. eauto.
Qed.

Lemma marked_getGameMetadata E ldb file filePath skipped :
    len (SLM_VERSION E) <= MaxValueSize ->
    marked (db ldb) -> marked (db (snd (getGameMetadata E ldb file filePath skipped))).
Proof.
    intros Hlen Hm.
    destruct (getGameMetadata_mgr E ldb file filePath skipped)
      as [[_ ->] | [[_ ->] | [_ [m ->]]]]; [done | done |].
    by apply marked_cacheStore.
Qed.
End StoreFacts.

(** X5.  Round trip through the cache.  When the key set is loaded, the
    cache misses, the structural parser gives a mapping that the encoder
    takes and the decoder gives back, and key and value are within the
    limits of the store, the resolver returns the mapping, and every later
    resolution of the same file from the store it leaves returns the same
    mapping from the cache, with the read transaction only, the store and
    the skip list untouched. *)
Theorem cache_round_trip E ldb file filePath skipped pr text m bytes :
  let key := fileKeyOf file filePath in
  let out := getGameMetadata E ldb file filePath skipped in
  deepScanAvailable E = true ->
  fst (cacheLookup E ldb key) = None ->
  invokedParser E file filePath = Some (pr, text) -> fst pr = Some m ->
  gobEncode E m = Some bytes -> gobDecode E bytes = Some m ->
  len key <= MaxKeySize -> len bytes <= MaxValueSize ->
  fst (fst out) = inl m /\
  sourceOf E (snd out) file filePath = FromCache /\
  forall skipped2,
    getGameMetadata E (snd out) file filePath skipped2
    = (inl m, skipped2,
       {| db := db (snd out); ops := ops (snd out) ++ [OpView key] |}).
Proof.
  cbn zeta. intros Hd Hmiss Hp Hm Henc Hdec Hk Hv.
  rewrite (ResolverFacts.getGameMetadata_deep E ldb file filePath skipped Hd).
  cbn zeta. rewrite Hmiss, Hp, Hm. cbn [fst snd].
  set (ldb1 := cacheStore E _ _ m).
  assert (fst (cacheLookup E ldb1 (fileKeyOf file filePath)) = Some m) as Hhit.
  { unfold cacheLookup. cbn [fst]. subst ldb1. unfold cacheStore. cbn [db cacheLookup snd].
    rewrite Henc.
    rewrite StoreFacts.Put_Some by (auto using StoreFacts.fileKey_nonempty).
    cbn [from_option id]. by rewrite !lookup_insert_eq. }
  split; [done |]. split.
  - unfold sourceOf. by rewrite Hd, Hhit.
  - intros skipped2.
    rewrite (ResolverFacts.getGameMetadata_deep E ldb1 file filePath skipped2 Hd).
    cbn zeta. by rewrite Hhit.
Qed.

Lemma cache_round_trip_witness :
  fst (fst (getGameMetadata parsingKeys (NewLocalSwitchDBManager ∅) unnamedDump
              "/roms/dump.nsp" ∅))
  = inl (fallbackEntry "0100000000001000" 0).
Proof.
  refine (proj1 (cache_round_trip parsingKeys (NewLocalSwitchDBManager ∅) unnamedDump
                   "/roms/dump.nsp" ∅
                   (Some (fallbackEntry "0100000000001000" 0), None)
                   "failed to read NSP [reason: "
                   (fallbackEntry "0100000000001000" 0) "gob" _ _ _ _ _ _ _ _));
    vm_compute; first [reflexivity | discriminate].
Defined.

(** X6.  A cache this code has written carries the version marker.  When
    the version string fits a value of the store: the resolver keeps a store
    marked, so does a whole run, a store just opened is marked, and opening
    the store a run leaves changes nothing in it, so the entries the run
    cached are all still there for the next run. *)
Theorem cache_keeps_marker E :
  len (SLM_VERSION E) <= MaxValueSize ->
  (forall store, marked (db (NewLocalSwitchDBManager store))) /\
  (forall ldb file filePath skipped,
     marked (db ldb) -> marked (db (snd (getGameMetadata E ldb file filePath skipped)))) /\
  (forall files st st',
     marked (db (mgr st)) -> processLocalFiles E files st = Some st' ->
     marked (db (mgr st')) /\
     db (NewLocalSwitchDBManager (db (mgr st'))) = db (mgr st')).
Proof.
  intros Hlen. split_and!.
  - apply StoreFacts.marked_open.
  - intros. by apply StoreFacts.marked_getGameMetadata.
  - intros files st st' Hm Hrun.
    assert (marked (db (mgr st'))) as Hm'.
    { apply (StoreFacts.run_mgr_preserves E (fun l => marked (db l))) with files st; auto.
      intros. by apply StoreFacts.marked_getGameMetadata. }
    split; [done |]. by apply StoreFacts.open_marked_id.
Qed.

Lemma cache_keeps_marker_witness :
  marked (db (NewLocalSwitchDBManager staleStore)).
Proof.
  refine (proj1 (cache_keeps_marker withKeys _) staleStore).
  vm_compute. discriminate.
Defined.

(** X7.  Opening a store whose bucket has no marker deletes the bucket, so
    that the lookup of every key misses afterwards; a store with no bucket
    is opened as it is.  No other bucket is touched. *)
Theorem open_deletes_unmarked_bucket store :
  (store !! "deep-scan" = None -> db (NewLocalSwitchDBManager store) = store) /\
  (forall b, store !! "deep-scan" = Some b -> b !! "app_version" = None ->
     db (NewLocalSwitchDBManager store) = delete "deep-scan" store /\
     forall E key, fst (cacheLookup E (NewLocalSwitchDBManager store) key) = None) /\
  sameOtherBuckets store (db (NewLocalSwitchDBManager store)).
Proof.
  unfold NewLocalSwitchDBManager. split_and!.
  - intros ->. done.
  - intros b Hb Hv. rewrite Hb, Hv. cbn [db]. split; [done |].
    intros E key. unfold cacheLookup. cbn [db fst]. by rewrite lookup_delete_eq.
  - intros name Hne. cbn [db].
    destruct (store !! "deep-scan") as [b |]; [| done].
    destruct (b !! "app_version"); [done |]. by rewrite lookup_delete_ne.
Qed.

Lemma open_deletes_unmarked_bucket_witness :
  db (NewLocalSwitchDBManager unmarkedStore) = delete "deep-scan" unmarkedStore.
Proof.
  refine (proj1 (proj1 (proj2 (open_deletes_unmarked_bucket unmarkedStore))
                   {[staleKey := "gob"]} _ _)).
  - apply lookup_singleton_eq.
  - vm_compute. reflexivity.
Defined.

(** X8.  [ClearDB] deletes the bucket of the cache and nothing else: after
    it the lookup of every key misses, so no resolution comes from the
    cache.  On a store with no bucket it
    returns the error "bucket not found" and leaves the store as it is, so
    clearing twice fails the second time. *)
Theorem ClearDB_forgets ldb :
  db (fst (ClearDB ldb)) !! "deep-scan" = None /\
  sameOtherBuckets (db ldb) (db (fst (ClearDB ldb))) /\
  (forall E key, fst (cacheLookup E (fst (ClearDB ldb)) key) = None) /\
  (forall E file filePath, sourceOf E (fst (ClearDB ldb)) file filePath <> FromCache) /\
  (snd (ClearDB ldb) = None <-> is_Some (db ldb !! "deep-scan")) /\
  (db ldb !! "deep-scan" = None -> ClearDB ldb = (ldb, Some "bucket not found")) /\
  ClearDB (fst (ClearDB ldb)) = (fst (ClearDB ldb), Some "bucket not found").
Proof.
  assert (Hnone : db (fst (ClearDB ldb)) !! "deep-scan" = None).
  { unfold ClearDB. destruct (db ldb !! "deep-scan") eqn:Hb; cbn [fst db]; [| done].
    apply lookup_delete_eq. }
  assert (Hmiss : forall E key, fst (cacheLookup E (fst (ClearDB ldb)) key) = None).
  { intros E key. unfold cacheLookup. cbn [fst]. by rewrite Hnone. }
  split_and!.
  - exact Hnone.
  - intros name Hne. unfold ClearDB.
    destruct (db ldb !! "deep-scan"); cbn [fst db]; [| done].
    by rewrite lookup_delete_ne.
  - exact Hmiss.
  - intros E file filePath. unfold sourceOf. rewrite Hmiss.
    destruct (deepScanAvailable E); [| done].
    destruct (invokedParser E file filePath) as [[res ?] |]; [| done].
    destruct (fst res); done.
  - unfold ClearDB. destruct (db ldb !! "deep-scan"); cbn [snd]; split; eauto.
    + discriminate.
    + intros [? [=]].
  - intros H. unfold ClearDB. by rewrite H.
  - unfold ClearDB at 1. by rewrite Hnone.
Qed.

(** X9.  The resolver changes the skip list at the file it resolves at
    most, and then to a malformed-file record; without the header key it
    does not change it at all, and it never takes a record away. *)
Theorem resolver_skip_frame E ldb file filePath skipped :
  let sk := snd (fst (getGameMetadata E ldb file filePath skipped)) in
  (forall g, g <> file -> sk !! g = skipped !! g) /\
  (sk !! file = skipped !! file \/
   exists r, sk !! file = Some r /\ ReasonCode r = REASON_MALFORMED_FILE) /\
  (forall g, is_Some (skipped !! g) -> is_Some (sk !! g)) /\
  (deepScanAvailable E = false -> sk = skipped) /\
  (sk <> skipped -> exists res text err,
     invokedParser E file filePath = Some (res, text) /\ snd res = Some err).
Proof.
  cbn zeta.
  pose proof (ResolverFacts.getGameMetadata_skipped E ldb file filePath skipped) as Hsk.
  cbn zeta in Hsk. split_and!.
  - intros g Hg. destruct Hsk as [-> | (r & -> & _)]; [done |].
    by rewrite lookup_insert_ne.
  - destruct Hsk as [-> | (r & -> & Hr)]; [by left | right].
    rewrite lookup_insert_eq. eauto.
  - intros g Hg. destruct Hsk as [-> | (r & -> & _)]; [done |].
    by apply RunFacts.isSkipped_insert.
  - intros Hd. by rewrite ResolverFacts.getGameMetadata_shallow.
  - destruct (deepScanAvailable E) eqn:Hd.
    + rewrite ResolverFacts.getGameMetadata_deep by done. cbn zeta.
      destruct (fst (cacheLookup _ _ _)); [done |].
      destruct (invokedParser E file filePath) as [[res text] |]; [| done].
      intros Hne. exists res, text.
      destruct (ResolverFacts.structural_skipped file res text skipped)
        as [Heq | (err & Herr & _)]; [| eauto].
      destruct (fst res); cbn [fst snd] in Hne; congruence.
    + rewrite ResolverFacts.getGameMetadata_shallow by done. done.
Qed.

(** X10.  Without the header key a whole run leaves the manager as it is:
    no transaction is run and the store keeps its content.  With or without
    it, a run only adds to the history of transactions and never touches a
    bucket other than the one of the cache. *)
Theorem run_store_frame E files st st' :
  processLocalFiles E files st = Some st' ->
  (deepScanAvailable E = false -> mgr st' = mgr st) /\
  (exists added, ops (mgr st') = ops (mgr st) ++ added) /\
  sameOtherBuckets (db (mgr st)) (db (mgr st')).
Proof.
  intros Hrun. split_and!.
  - intros Hd.
    apply (StoreFacts.run_mgr_preserves E (fun l => l = mgr st)) with files st; auto.
    intros ldb file filePath skipped ->.
    by rewrite ResolverFacts.getGameMetadata_shallow.
  - apply (StoreFacts.run_mgr_preserves E
             (fun l => exists added, ops l = ops (mgr st) ++ added)) with files st; auto.
    + intros ldb file filePath skipped [added Hadd].
      destruct (StoreFacts.getGameMetadata_mgr E ldb file filePath skipped)
        as [[_ ->] | [[_ ->] | [_ [m ->]]]].
      * eauto.
      * cbn. rewrite Hadd, <- app_assoc. eauto.
      * cbn. rewrite Hadd, <- !app_assoc. eauto.
    + exists []. by rewrite app_nil_r.
  - apply (StoreFacts.run_mgr_preserves E
             (fun l => sameOtherBuckets (db (mgr st)) (db l))) with files st; auto.
    + intros ldb file filePath skipped Hsame.
      destruct (StoreFacts.getGameMetadata_mgr E ldb file filePath skipped)
        as [[_ ->] | [[_ ->] | [_ [m ->]]]]; [done | done |].
      destruct (StoreFacts.cacheStore_db E (snd (cacheLookup E ldb (fileKeyOf file filePath)))
                  (fileKeyOf file filePath) m) as [-> | (bytes & b & _ & -> & _)];
        [done |].
      intros name Hne. rewrite lookup_insert_ne by done. by apply Hsame.
    + done.
Qed.

Lemma run_store_frame_witness :
  mgr afterUpdates35 = mgr st0.
Proof.
  refine (proj1 (run_store_frame noKeys [update3; update5] st0 afterUpdates35 _) _).
  - run_completes.
  - reflexivity.
Defined.

(* ===================================================================== *)
(** * When a run ends, and what it touches                                *)
(* ===================================================================== *)

Module TotalFacts.
Import StringFacts ResolverFacts StepFacts.

Lemma shapeOf_is_Some f : is_Some (shapeOf f) <-> sliceable f.
Proof.
    rewrite shapeOf_cases. unfold sliceable.
    destruct (IsDir (Info f)); [split; eauto |].
    destruct (Z_lt_le_dec (len (ToLower (Name (Info f)))) 2) as [Hlt | Hge].
    - rewrite slice_from_None by lia.
      split; [intros [? [=]] | intros [[=] | ?]; lia].
    - rewrite slice_from_Some by lia.
      split; [by right |]. intros _.
      destruct (partNumber f) as [n |]; [destruct (n =? 0) | destruct (supportedExtension _)];
        eauto.
Qed.

Lemma longIds_fallback file cm : fallback file = inl cm -> longIds cm.
Proof.
    intros (tid & v & Ht & _ & ->)%FallbackFacts.fallback_inl k m.
    intros [= -> ->]%list_elem_of_singleton. cbn [TitleId].
    apply FallbackFacts.parseTitleId_sound in Ht as (pre & tok & post & _ & Hlen & _ & ->).
    unfold len. rewrite ToLower_length, str_length. lia.
Qed.

Lemma longIds_resolution E ldb file filePath skipped cm :
    parsersGiveLongIds E \/ deepScanAvailable E = false ->
    fst (fst (getGameMetadata E ldb file filePath skipped)) = inl cm -> longIds cm.
Proof.
    intros HE. destruct (deepScanAvailable E) eqn:Hd.
    - destruct HE as [(Hnsp & Hxci & Hsplit & Hdec) | [=]].
      rewrite getGameMetadata_deep by done. cbn zeta.
      destruct (fst (cacheLookup E ldb _)) as [m |] eqn:Hc.
      + cbn [fst]. intros [= <-]. unfold cacheLookup in Hc. cbn [fst] in Hc.
        destruct (db ldb !! "deep-scan") as [b |]; [| discriminate].
        destruct (b !! fileKeyOf file filePath) as [v |]; [| discriminate]. eauto.
      + destruct (invokedParser E file filePath) as [[res text] |] eqn:Hp.
        * destruct (fst res) as [m |] eqn:Hm; cbn [fst].
          -- intros [= <-]. unfold invokedParser in Hp.
             destruct (_ || _); [injection Hp as <- _; eauto |].
             destruct (_ || _); [injection Hp as <- _; eauto |].
             destruct (HasSuffix _ "00"); [injection Hp as <- _; eauto | discriminate].
          -- apply longIds_fallback.
        * cbn [fst]. apply longIds_fallback.
    - rewrite getGameMetadata_shallow by done. cbn [fst]. apply longIds_fallback.
Qed.

Lemma classifyEntry_total file isSplit multi m titles skipped :
    4 <= len (TitleId m) ->
    is_Some (classifyEntry file isSplit multi m titles skipped).
Proof.
    intros Hlen. unfold classifyEntry, idPrefixOf.
    rewrite slice_to_Some by lia. cbn [mbind option_bind].
    destruct (classifyTitle _ _ _ _). eauto.
Qed.

Lemma classifyEntries_total file isSplit multi cm :
    longIds cm -> forall titles skipped,
    is_Some (classifyEntries file isSplit multi cm titles skipped).
Proof.
    induction cm as [| [k m] cm IH]; intros Hlong titles skipped; cbn; [eauto |].
    destruct (classifyEntry_total file isSplit multi m titles skipped) as [[t1 s1] ->].
    { apply (Hlong k m). by left. }
    cbn. apply IH. intros k' m' Hin. apply (Hlong k' m'). by right.
Qed.

Lemma processFile_total E st f :
    parsersGiveLongIds E \/ deepScanAvailable E = false ->
    (is_Some (processFile E st f) <-> sliceable f).
Proof.
    intros HE. rewrite <- shapeOf_is_Some. unfold processFile.
    destruct (shapeOf f) as [[| | isSplit] |]; cbn [mbind option_bind];
      [split; eauto | split; eauto | | split; intros [? [=]]].
    split; [eauto |]. intros _.
    pose proof (longIds_resolution E (mgr st) f (Join E (BaseFolder f) (Name (Info f)))
                  (skipped st)) as Hlong.
    destruct (getGameMetadata _ _ _ _ _) as [[res sk] ldb]. cbn [fst] in Hlong.
    destruct res as [cm | err]; [| eauto].
    destruct (classifyEntries_total f isSplit (1 <? Z.of_nat (length cm)) cm
                (Hlong cm HE eq_refl) (titles st) sk) as [[t1 s1] ->].
    cbn. eauto.
Qed.
  (** A file that is not in the list, or that the loop passes over, is
      neither skipped nor referenced after a run if it was not before. *)
Lemma run_leaves_alone E f : forall files st0 st1,
    (forall g, g ∈ files -> g <> f \/ shapeOf f = Some Ignored) ->
    wfTitles (titles st0) -> ~ referenced (titles st0) f ->
    skipped st0 !! f = None ->
    processLocalFiles E files st0 = Some st1 ->
    ~ referenced (titles st1) f /\ skipped st1 !! f = None.
Proof.
    intros fs. induction fs as [| g fs IH]; intros sa sb Hall Hwf Hnr Hns; cbn.
    - intros [= <-]. done.
    - destruct (processFile E sa g) as [sc |] eqn:Hstep; [| discriminate]. cbn.
      assert (wfTitles (titles sc) /\ ~ referenced (titles sc) f /\
              skipped sc !! f = None) as (Hwf' & Hnr' & Hns').
      { destruct (decide (g = f)) as [-> | Hne].
        - destruct (Hall f) as [? | Hign]; [by left | done |].
          rewrite (StepFacts.processFile_ignored E sa f Hign) in Hstep.
          by injection Hstep as <-.
        - assert (processLocalFiles E [g] sa = Some sc) as Hone by (cbn; by rewrite Hstep).
          destruct (FrameFacts.run_frame E [g] sa sc f) as (? & ? & Hs); auto.
          split_and!; [done | done | congruence]. }
      apply IH; auto. intros g' Hg'. apply Hall. by right.
Qed.
End TotalFacts.

(** X11.  When every title id the structural parsers and the cache can
    give has at least four characters, or no header key is loaded, a run
    ends without a panic exactly when every file in the list is a directory
    or has a name that counts at least two bytes once in lower case: the
    only panic left is the slice of the last two bytes of a shorter name. *)
Theorem run_ends_iff_sliceable E files st :
  parsersGiveLongIds E \/ deepScanAvailable E = false ->
  (is_Some (processLocalFiles E files st) <-> Forall sliceable files).
Proof.
  intros HE. revert st. induction files as [| f files IH]; intros st; cbn.
  - split; [constructor | eauto].
  - rewrite Forall_cons, <- (TotalFacts.processFile_total E st f HE).
    destruct (processFile E st f) as [st1 |]; cbn.
    + rewrite IH. split; [eauto | tauto].
    + split; [intros [? [=]] | intros [[? [=]] _]].
Qed.

Lemma run_ends_iff_sliceable_witness :
  is_Some (processLocalFiles noKeys [update3; segment01] st0)
  <-> Forall sliceable [update3; segment01].
Proof.
  refine (run_ends_iff_sliceable noKeys [update3; segment01] st0 _).
  right. reflexivity.
Defined.

(** X12.  A run from the empty catalogue touches the files of its list
    only: a file that ends in the skip list or referenced from a title
    record is one of the list, and it is no directory and no segment with a
    number other than zero. *)
Theorem run_touches_only_inputs E ldb files st f :
  processLocalFiles E files {| mgr := ldb; titles := ∅; skipped := ∅ |} = Some st ->
  isSkipped (skipped st) f \/ referenced (titles st) f ->
  f ∈ files /\ shapeOf f <> Some Ignored.
Proof.
  intros Hrun Hf.
  assert (~ (f ∉ files \/ shapeOf f = Some Ignored)) as Hnot.
  { intros Hcase.
    destruct (TotalFacts.run_leaves_alone E f files
                {| mgr := ldb; titles := ∅; skipped := ∅ |} st)
      as [Hnr Hns]; auto using FrameFacts.wfTitles_empty, FrameFacts.referenced_empty.
    - intros g Hg. destruct Hcase as [Hnin | Hign]; [left | by right].
      intros ->. done.
    - destruct Hf as [[r Hr] | Hr]; [congruence | done]. }
  split.
  - destruct (decide (f ∈ files)); [done | exfalso; auto].
  - intros Hign. auto.
Qed.

Lemma run_touches_only_inputs_witness :
  update3 ∈ [update3; update5] /\ shapeOf update3 <> Some Ignored.
Proof.
  refine (run_touches_only_inputs noKeys (NewLocalSwitchDBManager ∅)
            [update3; update5] afterUpdates35 update3 _ _).
  - run_completes.
  - left. exists oldUpdate. vm_compute. reflexivity.
Defined.

(* ===================================================================== *)
(** * More on the classifier                                              *)
(* ===================================================================== *)

Module SeqFacts.
Import ClassifierFacts UpdateFacts SuffixFacts.

Lemma maxVersion_perm entries entries' : entries ≡ₚ entries' ->
    forall base, maxVersion entries base = maxVersion entries' base.
Proof.
    unfold maxVersion. induction 1 as [| x l l' _ IH | x y l | l1 l2 l3 _ IH1 _ IH2];
      intros base; cbn.
    - done.
    - apply IH.
    - f_equal. lia.
    - by rewrite IH1.
Qed.

Lemma classifyTitle_update_dom file m t s :
    isUpdate m ->
    dom (Updates (fst (classifyTitle file m t s))) = {[Version m]} ∪ dom (Updates t).
Proof.
    intros Hu. rewrite classifyTitle_update by done.
    destruct (Updates t !! Version m) as [u |] eqn:Hv; cbn [fst].
    - symmetry. apply subseteq_union_1_L, singleton_subseteq_l, elem_of_dom. eauto.
    - cbn zeta. destruct (LatestUpdate t <? Version m); cbn; by rewrite dom_insert_L.
Qed.

Lemma classifyTitleSeq_dom entries t s :
    Forall (fun fm => isUpdate (snd fm)) entries ->
    dom (Updates (fst (classifyTitleSeq entries t s))) = versionsOf entries ∪ dom (Updates t).
Proof.
    unfold versionsOf.
    induction entries as [| fm entries IH] using rev_ind.
    { intros _. cbn. by rewrite union_empty_l_L. }
    intros [Hall Hfm%Forall_inv]%Forall_app.
    rewrite classifyTitleSeq_snoc, classifyTitle_update_dom, IH by done.
    rewrite map_app, list_to_set_app_L. cbn. rewrite union_empty_r_L.
    apply set_eq. intros z. rewrite !elem_of_union. tauto.
Qed.

Lemma versionsOf_perm entries entries' :
    entries ≡ₚ entries' -> versionsOf entries = versionsOf entries'.
Proof.
    intros Hp. unfold versionsOf. apply set_eq. intros v.
    rewrite !elem_of_list_to_set. by rewrite Hp.
Qed.

  (** The DLC slot of an id after a sequence of entries of that id. *)
Lemma dlc_slot_invariant id entries t s :
    Forall (fun fm => isDlcOf id (snd fm)) entries ->
    let slot := Dlc (fst (classifyTitleSeq entries t s)) !! id in
    (entries = [] /\ slot = Dlc t !! id) \/
    exists d, slot = Some d /\
      (forall fm, fm ∈ entries -> Version (snd fm) <= Version (Metadata d)) /\
      (forall d0, Dlc t !! id = Some d0 -> Version (Metadata d0) <= Version (Metadata d)) /\
      ((exists fm, fm ∈ entries /\ d = dlcEntry fm) \/ Dlc t !! id = Some d).
Proof.
    cbn zeta. induction entries as [| x entries IH] using rev_ind; [by left |].
    intros [Hall [Hx Hid]%Forall_inv]%Forall_app. right.
    rewrite classifyTitleSeq_snoc.
    set (t1 := fst (classifyTitleSeq entries t s)) in *.
    set (s1 := snd (classifyTitleSeq entries t s)).
    rewrite (classifyTitle_dlc (fst x) (snd x) t1 s1 Hx), Hid. cbn zeta.
    assert (Hinstall :
      (forall d1, Dlc t1 !! id = Some d1 -> Version (Metadata d1) < Version (snd x)) ->
      exists d,
        Dlc (setDlc t1 (<[id := {| ExtendedInfo := fst x;
                                   Metadata := withType (snd x) "DLC" |}]> (Dlc t1))) !! id
        = Some d /\
        (forall fm, fm ∈ entries ++ [x] -> Version (snd fm) <= Version (Metadata d)) /\
        (forall d0, Dlc t !! id = Some d0 -> Version (Metadata d0) <= Version (Metadata d)) /\
        ((exists fm, fm ∈ entries ++ [x] /\ d = dlcEntry fm) \/ Dlc t !! id = Some d)).
    { intros Hlt. exists (dlcEntry x). cbn. rewrite lookup_insert_eq.
      split; [done |].
      destruct (IH Hall) as [[-> Hslot] | (d & Hslot & Hle & Hle0 & _)].
      - split_and!.
        + intros fm ->%list_elem_of_singleton. lia.
        + intros d0 Hd0. rewrite <- Hslot in Hd0. specialize (Hlt d0 Hd0). lia.
        + left. exists x. split; [by apply list_elem_of_singleton | done].
      - specialize (Hlt d Hslot). split_and!.
        + intros fm [Hin | ->%list_elem_of_singleton]%elem_of_app; [| lia].
          specialize (Hle fm Hin). lia.
        + intros d0 Hd0. specialize (Hle0 d0 Hd0). lia.
        + left. exists x. split; [| done]. apply elem_of_app. right.
          by apply list_elem_of_singleton. }
    destruct (Dlc t1 !! id) as [d |] eqn:Hd.
    - assert (Hkeep : Version (snd x) <= Version (Metadata d) ->
        exists d', Some d = Some d' /\
          (forall fm, fm ∈ entries ++ [x] -> Version (snd fm) <= Version (Metadata d')) /\
          (forall d0, Dlc t !! id = Some d0 ->
             Version (Metadata d0) <= Version (Metadata d')) /\
          ((exists fm, fm ∈ entries ++ [x] /\ d' = dlcEntry fm) \/ Dlc t !! id = Some d')).
      { intros Hle. exists d. split; [done |].
        destruct (IH Hall) as [[-> Hslot] | (d' & [= <-] & Hle' & Hle0 & Hfrom)].
        - split_and!.
          + intros fm ->%list_elem_of_singleton. done.
          + intros d0 Hd0. rewrite <- Hslot in Hd0. injection Hd0 as <-. lia.
          + right. by rewrite <- Hslot.
        - split_and!.
          + intros fm [Hin | ->%list_elem_of_singleton]%elem_of_app; auto.
          + done.
          + destruct Hfrom as [(fm & Hin & ->) | ?]; [left | by right].
            exists fm. split; [| done]. apply elem_of_app. by left. }
      destruct (Version (snd x) <? Version (Metadata d)) eqn:Hlt; cbn [fst].
      { rewrite Hd. apply Hkeep. apply Z.ltb_lt in Hlt. lia. }
      destruct (Version (snd x) =? Version (Metadata d)) eqn:Heq; cbn [fst].
      { rewrite Hd. apply Hkeep. apply Z.eqb_eq in Heq. lia. }
      apply Hinstall. intros d1 [= <-].
      apply Z.ltb_ge in Hlt. apply Z.eqb_neq in Heq. lia.
    - cbn [fst]. apply Hinstall. intros d1 [=].
Qed.

Lemma classifyTitle_flags file m t s :
    IsSplit (fst (classifyTitle file m t s)) = IsSplit t /\
    MultiContent (fst (classifyTitle file m t s)) = MultiContent t.
Proof.
    unfold classifyTitle.
    destruct (HasSuffix (TitleId m) "800").
    { cbn [withType Version]. destruct (Updates t !! Version m); [done |].
      cbn [setUpdates LatestUpdate]. by destruct (LatestUpdate t <? Version m). }
    destruct (HasSuffix (TitleId m) "000"); [by destruct (BaseExist t) |].
    destruct (Dlc t !! TitleId m) as [d |]; [| done].
    destruct (Version m <? Version (Metadata d)); [done |].
    by destruct (Version m =? Version (Metadata d)).
Qed.
End SeqFacts.

(** X13.  For the entries of one DLC id that a title record is fed in a
    row, starting with no entry stored for the id: at the end the slot of
    the id holds one of the files of the sequence, with its version, and no
    entry of the sequence has a higher version. *)
Theorem dlc_slot_holds_highest id entries t s :
  Forall (fun fm => isDlcOf id (snd fm)) entries -> entries <> [] ->
  Dlc t !! id = None ->
  exists fm, fm ∈ entries /\
    Dlc (fst (classifyTitleSeq entries t s)) !! id = Some (dlcEntry fm) /\
    forall fm', fm' ∈ entries -> Version (snd fm') <= Version (snd fm).
Proof.
  intros Hall Hne Hnone.
  destruct (SeqFacts.dlc_slot_invariant id entries t s Hall)
    as [[-> _] | (d & Hslot & Hle & _ & [(fm & Hin & ->) | Hd])]; [done | | congruence].
  exists fm. split_and!; [done | done |]. intros fm' Hin'. apply (Hle fm' Hin').
Qed.

Lemma dlc_slot_holds_highest_witness :
  exists fm, fm ∈ [(dlcV1, sampleDlc 1); (dlcV2, sampleDlc 2)] /\
    Dlc (fst (classifyTitleSeq [(dlcV1, sampleDlc 1); (dlcV2, sampleDlc 2)]
                (newTitle false false) ∅)) !! "0100000000001001"
    = Some (dlcEntry fm) /\
    forall fm', fm' ∈ [(dlcV1, sampleDlc 1); (dlcV2, sampleDlc 2)] ->
                Version (snd fm') <= Version (snd fm).
Proof.
  refine (dlc_slot_holds_highest "0100000000001001"
            [(dlcV1, sampleDlc 1); (dlcV2, sampleDlc 2)] (newTitle false false) ∅ _ _ _).
  - repeat constructor.
  - discriminate.
  - reflexivity.
Defined.

(** X14.  The latest update version of a title and the set of versions
    stored in its update map do not depend on the order in which the update
    entries come. *)
Theorem update_outcome_order_independent entries entries' t s s' :
  wfTitle t -> Forall (fun fm => isUpdate (snd fm)) entries ->
  entries ≡ₚ entries' ->
  LatestUpdate (fst (classifyTitleSeq entries t s))
  = LatestUpdate (fst (classifyTitleSeq entries' t s')) /\
  dom (Updates (fst (classifyTitleSeq entries t s)))
  = dom (Updates (fst (classifyTitleSeq entries' t s'))).
Proof.
  intros Hwf Hall Hperm.
  assert (Forall (fun fm => isUpdate (snd fm)) entries') as Hall' by (by rewrite <- Hperm).
  split.
  - rewrite !UpdateFacts.classifyTitleSeq_latest by done.
    by apply SeqFacts.maxVersion_perm.
  - rewrite !SeqFacts.classifyTitleSeq_dom by done.
    by rewrite (SeqFacts.versionsOf_perm _ _ Hperm).
Qed.

Lemma update_outcome_order_independent_witness :
  LatestUpdate (fst (classifyTitleSeq [(update3, sampleUpdate 3); (update5, sampleUpdate 5)]
                       (newTitle false false) ∅))
  = LatestUpdate (fst (classifyTitleSeq [(update5, sampleUpdate 5); (update3, sampleUpdate 3)]
                         (newTitle false false) ∅)).
Proof.
  refine (proj1 (update_outcome_order_independent
                   [(update3, sampleUpdate 3); (update5, sampleUpdate 5)]
                   [(update5, sampleUpdate 5); (update3, sampleUpdate 3)]
                   (newTitle false false) ∅ ∅ _ _ _)).
  - apply ClassifierFacts.wfTitle_new.
  - repeat constructor.
  - apply perm_swap.
Defined.

(** X15.  The flags [IsSplit] and [MultiContent] of a title record are
    those of the entry that created the record: a record made for an entry
    gets the flags of the file of that entry, and nothing a run does later
    changes them. *)
Theorem flags_fixed_at_creation E :
  (forall file isSplit multi m titles skipped titles' skipped' p,
     idPrefixOf (TitleId m) = Some p -> titles !! p = None ->
     classifyEntry file isSplit multi m titles skipped = Some (titles', skipped') ->
     exists t', titles' !! p = Some t' /\ IsSplit t' = isSplit /\ MultiContent t' = multi) /\
  (forall files st st' p t,
     processLocalFiles E files st = Some st' -> titles st !! p = Some t ->
     exists t', titles st' !! p = Some t' /\
       IsSplit t' = IsSplit t /\ MultiContent t' = MultiContent t).
Proof.
  split.
  - intros file isSplit multi m titles skipped titles' skipped' p Hp Hnone
           (p' & Hp' & -> & _)%ClassifierFacts.classifyEntry_inv.
    assert (p' = p) as -> by congruence. rewrite Hnone. cbn [from_option id].
    eexists. rewrite lookup_insert_eq. split; [done |].
    apply SeqFacts.classifyTitle_flags.
  - intros files st st' p t Hrun Hp.
    apply (RunFacts.processLocalFiles_preserves E (fun _ => True)
             (fun T _ => exists t', T !! p = Some t' /\
                IsSplit t' = IsSplit t /\ MultiContent t' = MultiContent t))
      with (files := files) (st := st); eauto using RunFacts.Forall_True.
    intros g isSplit multi m T S T' S' _ (t1 & Ht1 & Hs & Hm)
           (q & _ & -> & _)%ClassifierFacts.classifyEntry_inv.
    destruct (decide (q = p)) as [-> | Hne].
    + rewrite lookup_insert_eq, Ht1. cbn [from_option id]. eexists. split; [done |].
      destruct (SeqFacts.classifyTitle_flags g m t1 S) as [-> ->]. done.
    + rewrite lookup_insert_ne by done. eauto.
Qed.

Lemma flags_fixed_at_creation_witness :
  exists t', titles afterUpdate3Then5 !! gamePrefix = Some t' /\
    IsSplit t' = IsSplit recordAfterUpdate3 /\
    MultiContent t' = MultiContent recordAfterUpdate3.
Proof.
  refine (proj2 (flags_fixed_at_creation noKeys) [update5] afterUpdate3
            afterUpdate3Then5 gamePrefix recordAfterUpdate3 _ _).
  - run_completes.
  - run_completes.
Defined.

(* ===================================================================== *)
(** * The folder scan and the shape of a file name                        *)
(* ===================================================================== *)

Module ScanFacts.
Import StringFacts.

Lemma scanVisit_inv sep folder recursive files e files' :
    scanVisit sep folder recursive files e = Some files' ->
    files' = files \/
    exists f, files' = files ++ [f] /\ collectedFrom sep folder recursive e f.
Proof.
    unfold scanVisit, collectedFrom.
    destruct (String.eqb_spec (walkPath e) folder) as [| Hpath];
      [intros [= <-]; by left |].
    destruct (walkErr e) as [err |] eqn:Herr; [intros [= <-]; by left |].
    destruct (IsDir (walkInfo e)) eqn:Hdir; [intros [= <-]; by left |].
    destruct (slice_to (Name (walkInfo e)) 1) as [first |] eqn:Hfirst; [| discriminate].
    cbn [mbind option_bind].
    destruct (String.eqb_spec first ".") as [| Hdot]; [intros [= <-]; by left |].
    destruct (slice_to (walkPath e) _) as [base |] eqn:Hbase; [| discriminate].
    cbn [mbind option_bind].
    destruct (negb (String.eqb (TrimSuffix base sep) (TrimSuffix folder sep))
              && negb recursive) eqn:Hkeep; [intros [= <-]; by left |].
    intros [= <-]. right. eexists. split; [done |]. cbn [Info BaseFolder].
    split_and!; eauto.
    intros ->. rewrite andb_true_r in Hkeep. apply negb_false_iff in Hkeep.
    by apply String.eqb_eq.
Qed.

Lemma scanFolder_inv sep folder recursive visits : forall files files',
    scanFolder sep folder recursive visits files = Some files' ->
    exists new, files' = files ++ new /\
      Forall (fun f => exists e, e ∈ visits /\ collectedFrom sep folder recursive e f) new.
Proof.
    induction visits as [| e visits IH]; intros files files'; cbn.
    - intros [= <-]. exists []. by rewrite app_nil_r.
    - destruct (scanVisit sep folder recursive files e) as [files1 |] eqn:Hv;
        [| discriminate].
      cbn [mbind option_bind]. intros (new & -> & Hnew)%IH.
      assert (Forall (fun f => exists e0, e0 ∈ e :: visits /\
                        collectedFrom sep folder recursive e0 f) new) as Hnew'.
      { eapply Forall_impl; [exact Hnew |]. intros f (e0 & Hin & Hc).
        exists e0. split; [by right | done]. }
      apply scanVisit_inv in Hv as [-> | (f & -> & Hf)].
      + eauto.
      + exists (f :: new). rewrite <- app_assoc. split; [done |].
        constructor; [| done]. exists e. split; [by left | done].
Qed.

Lemma scanVisit_total sep folder recursive files e :
    walkLike e -> is_Some (scanVisit sep folder recursive files e).
Proof.
    intros [Hsuf Hlen]. unfold scanVisit.
    destruct (String.eqb (walkPath e) folder); [eauto |].
    destruct (walkErr e); [eauto |].
    destruct (IsDir (walkInfo e)); [eauto |].
    rewrite (slice_to_Some (Name (walkInfo e)) 1) by lia. cbn [mbind option_bind].
    destruct (String.eqb _ "."); [eauto |].
    apply HasSuffix_spec in Hsuf as [pre Hpre].
    assert (len (walkPath e) = Z.of_nat (length pre) + len (Name (walkInfo e))) as Hl.
    { unfold len. rewrite <- !chars_length, Hpre, length_app. lia. }
    rewrite (slice_to_Some (walkPath e)) by lia. cbn [mbind option_bind].
    destruct (_ && _); eauto.
Qed.
End ScanFacts.

(** X16.  The folder scan only adds to the list of files, in the order of
    the walk, and what it adds are the files of calls of the walk that it
    keeps: never the folder itself, a call with an error, a directory or a
    file whose name starts with a dot, and, when the scan is not recursive,
    only files whose base folder is the folder itself up to a trailing
    separator.  The base folder of a file is its path without its name. *)
Theorem scan_collects sep walk recursive folders files files' :
  scanFolders sep walk recursive folders files = Some files' ->
  exists new, files' = files ++ new /\
    Forall (fun f =>
      exists folder e, folder ∈ folders /\ e ∈ walk folder /\
        collectedFrom sep folder recursive e f /\
        (HasSuffix (walkPath e) (Name (Info f)) = true ->
         walkPath e = BaseFolder f +:+ Name (Info f))) new.
Proof.
  revert files files'. induction folders as [| folder folders IH]; intros files files'; cbn.
  - intros [= <-]. exists []. by rewrite app_nil_r.
  - destruct (scanFolder sep folder recursive (walk folder) files) as [files1 |] eqn:Hs;
      [| discriminate].
    cbn [mbind option_bind]. intros (new2 & -> & Hnew2)%IH.
    apply ScanFacts.scanFolder_inv in Hs as (new1 & -> & Hnew1).
    exists (new1 ++ new2). rewrite <- app_assoc. split; [done |].
    apply Forall_app. split.
    + eapply Forall_impl; [exact Hnew1 |]. intros f (e & Hin & Hc).
      exists folder, e. split_and!; [by left | done | done |].
      intros [pre Hpre]%StringFacts.HasSuffix_spec.
      destruct Hc as (_ & _ & _ & _ & _ & Hbase & _).
      assert (len (walkPath e) = Z.of_nat (length pre) + len (Name (Info f))) as Hl.
      { unfold len. rewrite <- !StringFacts.chars_length, Hpre, length_app. lia. }
      assert (0 <= len (Name (Info f))) as Hnn by (unfold len; lia).
      rewrite StringFacts.slice_to_Some in Hbase by lia. injection Hbase as <-.
      apply StringFacts.chars_inj.
      rewrite StringFacts.chars_app, AtoiFacts.chars_str, Hpre, Hl.
      replace (Z.to_nat (Z.of_nat (length pre) + len (Name (Info f)) - len (Name (Info f))))
        with (length pre) by lia.
      by rewrite take_app_length.
    + eapply Forall_impl; [exact Hnew2 |]. intros f (folder' & e & Hin & He & Hc).
      exists folder', e. split_and!; [by right | done | apply Hc | apply Hc].
Qed.

Lemma scan_collects_witness :
  exists new, sampleScan = [] ++ new /\
    Forall (fun f =>
      exists folder e, folder ∈ ["/roms"] /\ e ∈ sampleWalk folder /\
        collectedFrom "/" folder false e f /\
        (HasSuffix (walkPath e) (Name (Info f)) = true ->
         walkPath e = BaseFolder f +:+ Name (Info f))) new.
Proof.
  refine (scan_collects "/" sampleWalk false ["/roms"] [] sampleScan _).
  run_completes.
Defined.

(** X17.  On calls as [filepath.Walk] makes them (the path ends in the
    name, and the name is not empty) the scan of a folder ends without a
    panic, and every file of a call that passes the tests of the scan is in
    the list it returns. *)
Theorem scan_keeps_regular_files sep folder recursive visits files :
  Forall walkLike visits ->
  exists files', scanFolder sep folder recursive visits files = Some files' /\
    forall e f, e ∈ visits -> collectedFrom sep folder recursive e f -> f ∈ files'.
Proof.
  revert files. induction visits as [| e visits IH]; intros files; cbn.
  - intros _. exists files. split; [done |]. intros e f Hin. by apply elem_of_nil in Hin.
  - intros [He Hall]%Forall_cons.
    destruct (ScanFacts.scanVisit_total sep folder recursive files e He) as [files1 Hv].
    rewrite Hv. cbn [mbind option_bind].
    destruct (IH files1 Hall) as (files' & Hscan & Hin').
    exists files'. split; [done |].
    intros e0 f [-> | Hin]%elem_of_cons Hc; [| eauto].
    destruct (ScanFacts.scanFolder_inv _ _ _ _ _ _ Hscan) as (new & -> & _).
    apply elem_of_app. left.
    destruct Hc as (Hpath & Herr & Hinfo & Hdir & (first & Hfirst & Hdot) & Hbase & Hrec).
    unfold scanVisit in Hv.
    destruct (String.eqb_spec (walkPath e) folder); [done |].
    rewrite Herr, <- Hinfo, Hdir, Hfirst in Hv. cbn [mbind option_bind] in Hv.
    destruct (String.eqb_spec first "."); [done |].
    rewrite Hbase in Hv. cbn [mbind option_bind] in Hv.
    assert (negb (String.eqb (TrimSuffix (BaseFolder f) sep) (TrimSuffix folder sep))
            && negb recursive = false) as Hkeep.
    { destruct recursive; [apply andb_false_r |].
      rewrite (Hrec eq_refl), String.eqb_refl. done. }
    rewrite Hkeep in Hv. injection Hv as <-.
    apply elem_of_app. right. apply list_elem_of_singleton. by destruct f.
Qed.

Lemma scan_keeps_regular_files_witness :
  exists files', scanFolder "/" "/roms" false (sampleWalk "/roms") [] = Some files' /\
    forall e f, e ∈ sampleWalk "/roms" -> collectedFrom "/" "/roms" false e f ->
                f ∈ files'.
Proof.
  refine (scan_keeps_regular_files "/" "/roms" false (sampleWalk "/roms") [] _).
  repeat (constructor; [split; [vm_compute; reflexivity | vm_compute; discriminate] |]).
  constructor.
Defined.

Module ShapeFacts.
Import StringFacts AtoiFacts StepFacts.

Lemma slice_last_two s pre a b :
    chars s = pre ++ [a; b] -> slice_from s (len s - 2) = Some (str [a; b]).
Proof.
    intros Hs.
    assert (len s = Z.of_nat (length pre) + 2) as Hl.
    { unfold len. rewrite <- chars_length, Hs, length_app. cbn. lia. }
    rewrite slice_from_Some by lia. f_equal. f_equal. rewrite Hs, Hl.
    replace (Z.to_nat (Z.of_nat (length pre) + 2 - 2)) with (length pre) by lia.
    apply drop_app_length.
Qed.

Lemma last_two_exist s :
    2 <= len s -> exists pre a b, chars s = pre ++ [a; b].
Proof.
    intros Hl. unfold len in Hl. rewrite <- chars_length in Hl.
    exists (take (length (chars s) - 2) (chars s)).
    pose proof (take_drop (length (chars s) - 2) (chars s)) as Htd.
    assert (length (drop (length (chars s) - 2) (chars s)) = 2%nat) as Hd.
    { rewrite length_drop. lia. }
    destruct (drop _ (chars s)) as [| a [| b [| c r]]]; cbn in Hd; try lia.
    by exists a, b.
Qed.

Lemma digit_zero c : is_digit c = true -> digit_val c = 0 -> c = "0"%char.
Proof.
    unfold is_digit, digit_val, code. intros _ Hv.
    rewrite <- (ascii_N_embedding c).
    replace (N_of_ascii c) with 48%N by lia. reflexivity.
Qed.

  (** [Atoi] of two bytes is zero for 00, +0 and -0 only. *)
Lemma Atoi_two_zero a b :
    Atoi (str [a; b]) = Some 0 <->
    b = "0"%char /\ (a = "0"%char \/ a = "+"%char \/ a = "-"%char).
Proof.
    unfold Atoi. rewrite chars_str. split.
    - destruct (Ascii.eqb_spec a "-") as [-> | Hm].
      { cbn [forallb]. destruct (is_digit b) eqn:Hb; [| discriminate].
        cbn [andb]. pose proof (digit_val_range b Hb).
        unfold decimal. cbn [fold_left].
        destruct (_ && _); [| discriminate]. intros [= Hz].
        split; [apply digit_zero; [done | lia] | auto]. }
      destruct (Ascii.eqb_spec a "+") as [-> | Hp].
      { cbn [forallb]. destruct (is_digit b) eqn:Hb; [| discriminate].
        cbn [andb]. pose proof (digit_val_range b Hb).
        unfold decimal. cbn [fold_left].
        destruct (_ && _); [| discriminate]. intros [= Hz].
        split; [apply digit_zero; [done | lia] | auto]. }
      cbn [forallb]. destruct (is_digit a) eqn:Ha; [| discriminate].
      destruct (is_digit b) eqn:Hb; [| discriminate]. cbn [andb].
      pose proof (digit_val_range a Ha). pose proof (digit_val_range b Hb).
      unfold decimal. cbn [fold_left].
      destruct (_ && _); [| discriminate]. intros [= Hz].
      split; [apply digit_zero; [done | lia] | left; apply digit_zero; [done | lia]].
    - intros [-> [-> | [-> | ->]]]; vm_compute; reflexivity.
Qed.

Lemma Atoi_extension a b :
    In (a, b) [("s", "p"); ("s", "z"); ("c", "i"); ("c", "z")]%char ->
    Atoi (str [a; b]) = None.
Proof.
    cbn [In]. intros [[= <- <-] | [[= <- <-] | [[= <- <-] | [[= <- <-] | []]]]];
      vm_compute; reflexivity.
Qed.

Lemma suffix3_last_two s x y z :
    HasSuffix s (String x (String y (String z EmptyString))) = true ->
    exists pre, chars s = pre ++ [y; z].
Proof.
    intros [pre Hpre]%HasSuffix_spec. exists (pre ++ [x]).
    rewrite Hpre. cbn. by rewrite <- app_assoc.
Qed.
End ShapeFacts.

(** X18.  A file with one of the four package extensions is never taken
    for a segment of a split file: it is resolved with the split flag off.
    A file is resolved with the split flag on exactly when it is no
    directory and its name ends in 00, +0 or -0; any other name that ends in
    two bytes that [strconv.Atoi] reads as a number is passed over. *)
Theorem shape_of_names f :
  IsDir (Info f) = false ->
  (supportedExtension (ToLower (Name (Info f))) = true ->
   shapeOf f = Some (Candidate false)) /\
  (shapeOf f = Some (Candidate true) <->
   exists a, lastTwo f a "0" /\ (a = "0"%char \/ a = "+"%char \/ a = "-"%char)) /\
  (forall n, partNumber f = Some n -> n <> 0 -> shapeOf f = Some Ignored).
Proof.
  intros Hdir. pose proof (StepFacts.shapeOf_cases f) as Hshape.
  rewrite Hdir in Hshape. split_and!.
  - intros Hext.
    assert (exists pre a b, chars (ToLower (Name (Info f))) = pre ++ [a; b] /\
              In (a, b) [("s", "p"); ("s", "z"); ("c", "i"); ("c", "z")]%char)
      as (pre & a & b & Hpre & Hab).
    { unfold supportedExtension in Hext.
      apply orb_prop in Hext as [Hext | Hxcz];
        [apply orb_prop in Hext as [Hext | Hnsz];
         [apply orb_prop in Hext as [Hxci | Hnsp] |] |].
      - apply ShapeFacts.suffix3_last_two in Hxci as [pre Hpre].
        exists pre, "c"%char, "i"%char. cbn. auto 10.
      - apply ShapeFacts.suffix3_last_two in Hnsp as [pre Hpre].
        exists pre, "s"%char, "p"%char. cbn. auto 10.
      - apply ShapeFacts.suffix3_last_two in Hnsz as [pre Hpre].
        exists pre, "s"%char, "z"%char. cbn. auto 10.
      - apply ShapeFacts.suffix3_last_two in Hxcz as [pre Hpre].
        exists pre, "c"%char, "z"%char. cbn. auto 10. }
    assert (partNumber f = None) as Hpart.
    { unfold partNumber. rewrite (ShapeFacts.slice_last_two _ pre a b Hpre).
      cbn [mbind option_bind]. by apply ShapeFacts.Atoi_extension. }
    rewrite Hshape, (ShapeFacts.slice_last_two _ pre a b Hpre), Hpart, Hext. done.
  - split.
    + intros Hs. rewrite Hs in Hshape.
      destruct (slice_from _ _) as [suffix |] eqn:Hsl; [| discriminate].
      assert (2 <= len (ToLower (Name (Info f)))) as Hlen.
      { destruct (Z_lt_le_dec (len (ToLower (Name (Info f)))) 2); [| done].
        rewrite StringFacts.slice_from_None in Hsl by lia. discriminate. }
      destruct (ShapeFacts.last_two_exist _ Hlen) as (pre & a & b & Hpre).
      assert (partNumber f = Some 0) as Hpart.
      { destruct (partNumber f) as [n |]; [| by destruct (supportedExtension _)].
        destruct (Z.eqb_spec n 0); [congruence | discriminate]. }
      unfold partNumber in Hpart.
      rewrite (ShapeFacts.slice_last_two _ pre a b Hpre) in Hpart.
      cbn [mbind option_bind] in Hpart.
      apply ShapeFacts.Atoi_two_zero in Hpart as [-> Ha].
      exists a. split; [by exists pre | done].
    + intros (a & [pre Hpre] & Ha).
      assert (partNumber f = Some 0) as Hpart.
      { unfold partNumber. rewrite (ShapeFacts.slice_last_two _ pre a "0" Hpre).
        cbn [mbind option_bind]. by apply ShapeFacts.Atoi_two_zero. }
      by rewrite Hshape, (ShapeFacts.slice_last_two _ pre a "0" Hpre), Hpart.
  - intros n Hn Hnz. rewrite Hshape.
    destruct (slice_from _ _) eqn:Hsl.
    + rewrite Hn. by apply Z.eqb_neq in Hnz as ->.
    + unfold partNumber in Hn. by rewrite Hsl in Hn.
Qed.

Lemma shape_of_names_witness :
  shapeOf update3 = Some (Candidate false).
Proof.
  refine (proj1 (shape_of_names update3 _) _); vm_compute; reflexivity.
Defined.

(* ===================================================================== *)
(** * From the folders to the catalogue                                   *)
(* ===================================================================== *)

Module EntryFacts.

Lemma scanFolders_inv sep walk recursive folders : forall files files',
    scanFolders sep walk recursive folders files = Some files' ->
    exists new, files' = files ++ new /\
      Forall (fun f => exists folder e, folder ∈ folders /\ e ∈ walk folder /\
                         collectedFrom sep folder recursive e f) new.
Proof.
    induction folders as [| folder folders IH]; intros files files'; cbn.
    - intros [= <-]. exists []. by rewrite app_nil_r.
    - destruct (scanFolder sep folder recursive (walk folder) files) as [files1 |] eqn:Hs;
        [| discriminate].
      cbn [mbind option_bind]. intros (new2 & -> & Hnew2)%IH.
      apply ScanFacts.scanFolder_inv in Hs as (new1 & -> & Hnew1).
      exists (new1 ++ new2). rewrite <- app_assoc. split; [done |].
      apply Forall_app. split.
      + eapply Forall_impl; [exact Hnew1 |]. intros f (e & Hin & Hc).
        exists folder, e. split_and!; [by left | done | done].
      + eapply Forall_impl; [exact Hnew2 |]. intros f (fo & e & Hfo & Hin & Hc).
        exists fo, e. split_and!; [by right | done | done].
Qed.

Lemma scanFolders_total sep walk recursive folders : forall files,
    (forall folder, folder ∈ folders -> Forall walkLike (walk folder)) ->
    is_Some (scanFolders sep walk recursive folders files).
Proof.
    induction folders as [| folder folders IH]; intros files Hall; cbn; [eauto |].
    assert (is_Some (scanFolder sep folder recursive (walk folder) files)) as [files1 ->].
    { assert (Forall walkLike (walk folder)) as Hw by (apply Hall; by left).
      revert files. induction Hw as [| e visits He _ IHv]; intros files; cbn; [eauto |].
      destruct (ScanFacts.scanVisit_total sep folder recursive files e He) as [f1 ->].
      cbn [mbind option_bind]. apply IHv. }
    cbn [mbind option_bind]. apply IH. intros fo Hfo. apply Hall. by right.
Qed.
End EntryFacts.

(** X19.  What [CreateLocalSwitchFilesDB] returns for a list of folders:
    the number of files is the number of files the scan collected, whether
    or not the classifier then passes them over, and every file in the skip
    list or referenced from a title record was reported by the walk of one
    of the folders and kept by the scan, so it is no directory, no hidden
    file and no segment with a number other than zero.  On calls as the walk
    makes them, and when no header key is loaded or every title id the
    parsers and the cache can give has at least four characters, the call
    ends without a panic exactly when every file collected has a name of at
    least two bytes once in lower case. *)
Theorem catalogue_from_folders E sep walk ldb folders recursive :
  (forall st n,
     CreateLocalSwitchFilesDBOfFolders E sep walk ldb folders recursive = Some (st, n) ->
     exists files, scanFolders sep walk recursive folders [] = Some files /\
       n = Z.of_nat (length files) /\
       forall f, isSkipped (skipped st) f \/ referenced (titles st) f ->
         f ∈ files /\ shapeOf f <> Some Ignored /\
         exists folder e, folder ∈ folders /\ e ∈ walk folder /\
           collectedFrom sep folder recursive e f) /\
  ((forall folder, folder ∈ folders -> Forall walkLike (walk folder)) ->
   parsersGiveLongIds E \/ deepScanAvailable E = false ->
   exists files, scanFolders sep walk recursive folders [] = Some files /\
     (is_Some (CreateLocalSwitchFilesDBOfFolders E sep walk ldb folders recursive)
      <-> Forall sliceable files)).
Proof.
  split.
  - intros st n. unfold CreateLocalSwitchFilesDBOfFolders, CreateLocalSwitchFilesDB.
    destruct (scanFolders sep walk recursive folders []) as [files |] eqn:Hscan;
      [| discriminate].
    cbn [mbind option_bind].
    destruct (processLocalFiles E files _) as [st1 |] eqn:Hrun; [| discriminate].
    cbn [mbind option_bind]. intros [= -> <-].
    exists files. split_and!; [done | done |]. intros f Hf.
    apply EntryFacts.scanFolders_inv in Hscan as (new & Hfiles & Hnew).
    cbn [app] in Hfiles. subst new.
    assert (f ∈ files /\ shapeOf f <> Some Ignored) as [Hin Hshape].
    { assert (~ (f ∉ files \/ shapeOf f = Some Ignored)) as Hnot.
      { intros Hcase.
        destruct (TotalFacts.run_leaves_alone E f files
                    {| mgr := ldb; titles := ∅; skipped := ∅ |} st)
          as [Hnr Hns]; auto using FrameFacts.wfTitles_empty, FrameFacts.referenced_empty.
        - intros g Hg. destruct Hcase as [Hnin | Hign]; [left | by right].
          intros ->. done.
        - destruct Hf as [[r Hr] | Hr]; [congruence | done]. }
      split; [destruct (decide (f ∈ files)); [done | exfalso; auto] | auto]. }
    split_and!; [done | done |].
    rewrite Forall_forall in Hnew. by apply Hnew.
  - intros Hwalk Hkeys.
    destruct (EntryFacts.scanFolders_total sep walk recursive folders [] Hwalk)
      as [files Hscan].
    exists files. split; [done |].
    unfold CreateLocalSwitchFilesDBOfFolders, CreateLocalSwitchFilesDB.
    rewrite Hscan. cbn [mbind option_bind].
    destruct (processLocalFiles E files _) as [st1 |] eqn:Hrun; cbn [mbind option_bind].
    + split; [intros _ | eauto].
      assert (forall fs sa, is_Some (processLocalFiles E fs sa) -> Forall sliceable fs) as Hall.
      { induction fs as [| f fs IH]; intros sa; cbn; [constructor |].
        destruct (processFile E sa f) as [sb |] eqn:Hstep; cbn; [| intros [? [=]]].
        intros Hrest. constructor; [| by eapply IH].
        apply (TotalFacts.processFile_total E sa f Hkeys). eauto. }
      eapply Hall. eauto.
    + split; [intros [? [=]] |]. intros Hall. exfalso.
      assert (forall fs sa, Forall sliceable fs -> is_Some (processLocalFiles E fs sa)) as Htot.
      { induction fs as [| f fs IH]; intros sa Hfs; cbn; [eauto |].
        apply Forall_cons in Hfs as [Hf Hfs].
        apply (TotalFacts.processFile_total E sa f Hkeys) in Hf as [sb ->].
        cbn. by apply IH. }
      destruct (Htot files {| mgr := ldb; titles := ∅; skipped := ∅ |} Hall) as [? Hsome].
      congruence.
Qed.

Lemma catalogue_from_folders_witness :
  exists files, scanFolders "/" sampleWalk true ["/roms"] [] = Some files /\
    2 = Z.of_nat (length files) /\
    forall f, isSkipped (skipped afterSampleScan) f \/ referenced (titles afterSampleScan) f ->
      f ∈ files /\ shapeOf f <> Some Ignored /\
      exists folder e, folder ∈ ["/roms"] /\ e ∈ sampleWalk folder /\
        collectedFrom "/" folder true e f.
Proof.
  refine (proj1 (catalogue_from_folders noKeys "/" sampleWalk (NewLocalSwitchDBManager ∅)
                   ["/roms"] true) afterSampleScan 2 _).
  unfold CreateLocalSwitchFilesDBOfFolders.
  assert (scanFolders "/" sampleWalk true ["/roms"] [] = Some sampleScanDeep) as ->
    by run_completes.
  cbn [mbind option_bind]. unfold CreateLocalSwitchFilesDB.
  assert (processLocalFiles noKeys sampleScanDeep
            {| mgr := NewLocalSwitchDBManager ∅; titles := ∅; skipped := ∅ |}
          = Some afterSampleScan) as -> by run_completes.
  cbn [mbind option_bind]. f_equal.
Defined.
